(** * waybar-google-calendar-check: a shallow embedding of [main.go]

    The program is one Go file.  Its three commands ([run], [setup], [list])
    are sequential glue around four collaborators: the file system, the
    OAuth2 client, the calendar service and the wall clock.  The embedding
    keeps that shape:

    - [time]: the part of Go's [time] package that [main.go] calls
      ([Parse] with the RFC3339 layout, [Before], [Add], [Truncate],
      [Format] with the layouts ["15:04"] and RFC3339);
    - [Env]: the collaborators, as read-only oracles;
    - [State] and the monad [M]: what a command changes while it runs (the
      number of clock readings, the unread standard input, the trace of
      observable effects), with process termination ([log.Fatalf], a nil
      dereference) as an abort of the whole computation;
    - [readCredentials], [readToken], [setup], [list], [run], [main]: the
      functions of [main.go], in source order. *)

From Stdlib Require Import ZArith String Ascii List Bool Lia.
From Stdlib Require Import Permutation Sorted DecimalString.
Import ListNotations.
Local Open Scope string_scope.
Local Open Scope Z_scope.

(** ** Go's [time] package, as far as [main.go] uses it *)

Module time.

(** [type Duration int64], a count of nanoseconds. *)
Definition Duration := Z.
Definition Second : Duration := 1000000000.
Definition Minute : Duration := 60 * Second.
Definition Hour : Duration := 60 * Minute.

(** A [*Location]: UTC, the system's local zone, or a zone made by
    [FixedZone] with a constant offset in seconds east of UTC. *)
Inductive Location := UTC | Local | FixedZone (offset : Z).

(** The rules of the local zone: from an instant (seconds since the zero
    time, in UTC) to the offset in force at that instant. *)
Definition ZoneRules := Z -> Z.

(** A [Time]: an instant, counted in seconds and nanoseconds since the
    zero time (January 1, year 1, 00:00:00 UTC), and the location it is
    presented in.  [0 <= nsec < 10^9] for every value the functions below
    build. *)
Record Time := mkTime { sec : Z; nsec : Z; loc : Location }.

(** [Time{}], which is also what [Parse] returns next to an error. *)
Definition zero : Time := mkTime 0 0 UTC.

Definition offset (tz : ZoneRules) (t : Time) : Z :=
  match loc t with
  | UTC => 0
  | Local => tz (sec t)
  | FixedZone o => o
  end.

Definition IsZero (t : Time) : bool := (sec t =? 0) && (nsec t =? 0).

(** [t.Before(u)]: the instants are compared, the locations are not. *)
Definition Before (t u : Time) : bool :=
  (sec t <? sec u) || ((sec t =? sec u) && (nsec t <? nsec u)).

Definition Equal (t u : Time) : bool :=
  (sec t =? sec u) && (nsec t =? nsec u).

(** [t.Add(d)]: Go splits [d] with its truncating division and carries
    the nanoseconds by hand. *)
Definition Add (t : Time) (d : Duration) : Time :=
  let dsec := Z.quot d 1000000000 in
  let ns := nsec t + Z.rem d 1000000000 in
  if 1000000000 <=? ns then mkTime (sec t + dsec + 1) (ns - 1000000000) (loc t)
  else if ns <? 0 then mkTime (sec t + dsec - 1) (ns + 1000000000) (loc t)
  else mkTime (sec t + dsec) ns (loc t).

(** Nanoseconds since the zero time. *)
Definition since_zero (t : Time) : Z := sec t * 1000000000 + nsec t.

(** [t.Truncate(d)]: "the result of rounding t down to a multiple of d
    (since the zero time)"; it works on the absolute duration, not on the
    presentation of [t] in its location. *)
Definition Truncate (t : Time) (d : Duration) : Time :=
  if d <=? 0 then t else Add t (- (since_zero t mod d)).

(** *** Calendar arithmetic *)

Definition isLeap (year : Z) : bool :=
  (year mod 4 =? 0) && (negb (year mod 100 =? 0) || (year mod 400 =? 0)).

(** [daysBefore m]: days of a non-leap year before month [m + 1]. *)
Definition daysBefore (m : Z) : Z :=
  nth (Z.to_nat m) [0; 31; 59; 90; 120; 151; 181; 212; 243; 273; 304; 334; 365] 0.

Definition daysIn (m year : Z) : Z :=
  if (m =? 2) && isLeap year then 29 else daysBefore m - daysBefore (m - 1).

(** Days from the zero time to January 1 of [year]. *)
Definition daysSinceZero (year : Z) : Z :=
  let y := year - 1 in 365 * y + y / 4 - y / 100 + y / 400.

(** [Date(year, month, day, hour, min, sec, nsec, UTC)] for fields that
    are in range, which is all [Parse] passes: the seconds since the zero
    time. *)
Definition Date_sec (year month day hour min s : Z) : Z :=
  let d := daysSinceZero year + daysBefore (month - 1)
           + (if isLeap year && (3 <=? month) then 1 else 0) + (day - 1) in
  d * 86400 + hour * 3600 + min * 60 + s.

(** [absDate]: year, month and day of a count of days since the zero
    time. *)
Definition civil (days : Z) : Z * Z * Z :=
  let n400 := days / 146097 in
  let d1 := days mod 146097 in
  let n100 := Z.min (d1 / 36524) 3 in
  let d2 := d1 - 36524 * n100 in
  let n4 := d2 / 1461 in
  let d3 := d2 mod 1461 in
  let n1 := Z.min (d3 / 365) 3 in
  let yday := d3 - 365 * n1 in
  let year := 400 * n400 + 100 * n100 + 4 * n4 + n1 + 1 in
  if isLeap year && (yday =? 59) then (year, 2, 29)
  else
    let day := if isLeap year && (59 <? yday) then yday - 1 else yday in
    let m := day / 31 in
    let e := daysBefore (m + 1) in
    if e <=? day then (year, m + 2, day - e + 1)
    else (year, m + 1, day - daysBefore m + 1).

(** *** Formatting *)

Definition zeros (n : nat) : string := string_of_list_ascii (repeat "0"%char n).

(** [appendInt(b, x, width)]: decimal, zero-padded to [width]. *)
Definition appendInt (x : Z) (width : nat) : string :=
  let digits := NilEmpty.string_of_uint (N.to_uint (Z.to_N (Z.abs x))) in
  (if x <? 0 then "-" else "")
    ++ zeros (width - String.length digits) ++ digits.

(** Wall-clock seconds of [t] in its own location. *)
Definition abs (tz : ZoneRules) (t : Time) : Z := sec t + offset tz t.

(** [t.Format("15:04")]: hour and minute of the wall clock, two digits
    each. *)
Definition Format_1504 (tz : ZoneRules) (t : Time) : string :=
  let clock := abs tz t mod 86400 in
  let hour := clock / 3600 in
  let min := (clock - hour * 3600) / 60 in
  appendInt hour 2 ++ ":" ++ appendInt min 2.

(** [t.Format(time.RFC3339)], layout ["2006-01-02T15:04:05Z07:00"]. *)
Definition Format_RFC3339 (tz : ZoneRules) (t : Time) : string :=
  let a := abs tz t in
  let '(year, month, day) := civil (a / 86400) in
  let clock := a mod 86400 in
  let hour := clock / 3600 in
  let min := (clock - hour * 3600) / 60 in
  let s := clock - hour * 3600 - min * 60 in
  let off := offset tz t in
  let zone := Z.quot off 60 in
  appendInt year 4 ++ "-" ++ appendInt month 2 ++ "-" ++ appendInt day 2
    ++ "T" ++ appendInt hour 2 ++ ":" ++ appendInt min 2 ++ ":" ++ appendInt s 2
    ++ (if off =? 0 then "Z"
        else (if zone <? 0 then "-" else "+")
               ++ appendInt (Z.abs zone / 60) 2 ++ ":"
               ++ appendInt (Z.abs zone mod 60) 2).

(** *** Parsing with the layout [time.RFC3339] *)

Definition isDigit (c : ascii) : bool :=
  let n := nat_of_ascii c in (48 <=? n)%nat && (n <=? 57)%nat.

Definition digitVal (c : ascii) : Z := Z.of_nat (nat_of_ascii c) - 48.

(** [getnum(s, fixed)]: one or two leading digits; exactly two when
    [fixed]. *)
Definition getnum (s : string) (fixed : bool) : option (Z * string) :=
  match s with
  | String c0 rest0 =>
      if isDigit c0 then
        match rest0 with
        | String c1 rest1 =>
            if isDigit c1 then Some (digitVal c0 * 10 + digitVal c1, rest1)
            else if fixed then None else Some (digitVal c0, rest0)
        | EmptyString => if fixed then None else Some (digitVal c0, rest0)
        end
      else None
  | EmptyString => None
  end.

(** The ["2006"] chunk: exactly four digits. *)
Definition getyear (s : string) : option (Z * string) :=
  match s with
  | String a (String b (String c (String d rest))) =>
      if isDigit a && isDigit b && isDigit c && isDigit d
      then Some (((digitVal a * 10 + digitVal b) * 10 + digitVal c) * 10 + digitVal d, rest)
      else None
  | _ => None
  end.

(** [skip(value, prefix)] for a one-character literal of the layout. *)
Definition skip (c : ascii) (s : string) : option string :=
  match s with
  | String c' rest => if Ascii.eqb c c' then Some rest else None
  | EmptyString => None
  end.

(** The leading digits of [s], and what follows them. *)
Fixpoint span_digits (s : string) : list ascii * string :=
  match s with
  | String c rest =>
      if isDigit c then let '(ds, r) := span_digits rest in (c :: ds, r)
      else ([], s)
  | EmptyString => ([], s)
  end.

Definition atoi_digits (ds : list ascii) : Z :=
  fold_left (fun acc c => acc * 10 + digitVal c) ds 0.

(** The fractional second that [Parse] accepts after the seconds field
    although the layout has none: a period or comma and at least one
    digit, of which [parseNanoseconds] reads nine. *)
Definition getfrac (s : string) : Z * string :=
  match s with
  | String p (String d rest) =>
      if (Ascii.eqb p "." || Ascii.eqb p ",") && isDigit d then
        let '(ds, r) := span_digits (String d rest) in
        let ds9 := firstn 9 ds in
        (atoi_digits ds9 * 10 ^ Z.of_nat (9 - List.length ds9), r)
      else (0, s)
  | _ => (0, s)
  end.

(** The ["Z07:00"] chunk: [Z], or a sign, two digits, a colon and two
    digits.  [None] stands for [Z] (the result is in UTC), [Some off] for
    a numeric offset in seconds. *)
Definition getzone (s : string) : option (option Z * string) :=
  match s with
  | String "Z" rest => Some (None, rest)
  | String sign (String h1 (String h2 (String colon (String m1 (String m2 rest))))) =>
      if negb (Ascii.eqb colon ":") then None
      else if isDigit h1 && isDigit h2 && isDigit m1 && isDigit m2 then
        let hr := digitVal h1 * 10 + digitVal h2 in
        let mm := digitVal m1 * 10 + digitVal m2 in
        if (24 <? hr) || (60 <? mm) then None
        else
          let zoneOffset := (hr * 60 + mm) * 60 in
          if Ascii.eqb sign "+" then Some (Some zoneOffset, rest)
          else if Ascii.eqb sign "-" then Some (Some (- zoneOffset), rest)
          else None
      else None
  | _ => None
  end.

(** What the text of a timestamp says: the wall-clock fields as written
    and the zone. *)
Record Fields := mkFields {
  f_year : Z; f_month : Z; f_day : Z;
  f_hour : Z; f_min : Z; f_sec : Z; f_nsec : Z;
  f_zone : option Z
}.

Definition guard (b : bool) : option unit := if b then Some tt else None.

Notation "' p <- c ;; k" := (match c with Some p => k | None => None end)
  (at level 61, p pattern, c at next level, right associativity).

(** The fields [Parse(time.RFC3339, value)] reads, or [None] where it
    returns an error. *)
Definition parse_fields (value : string) : option Fields :=
  ' (year, value) <- getyear value ;;
  ' value <- skip "-" value ;;
  ' (month, value) <- getnum value true ;;
  ' _ <- guard (negb ((month <=? 0) || (12 <? month))) ;;
  ' value <- skip "-" value ;;
  ' (day, value) <- getnum value true ;;
  ' value <- skip "T" value ;;
  ' (hour, value) <- getnum value false ;;
  ' _ <- guard (negb ((hour <? 0) || (24 <=? hour))) ;;
  ' value <- skip ":" value ;;
  ' (min, value) <- getnum value true ;;
  ' _ <- guard (negb ((min <? 0) || (60 <=? min))) ;;
  ' value <- skip ":" value ;;
  ' (s, value) <- getnum value true ;;
  ' _ <- guard (negb ((s <? 0) || (60 <=? s))) ;;
  let '(ns, value) := getfrac value in
  ' (zone, value) <- getzone value ;;
  ' _ <- guard (match value with EmptyString => true | _ => false end) ;;
  ' _ <- guard (negb ((day <? 1) || (daysIn month year <? day))) ;;
  Some (mkFields year month day hour min s ns zone).

(** The [Time] of parsed fields.  With [Z] the result is in UTC.  With a
    numeric offset Go uses [Local] when the local zone has that very
    offset at that instant, and a fixed zone of that offset otherwise. *)
Definition of_fields (tz : ZoneRules) (f : Fields) : Time :=
  let wall := Date_sec (f_year f) (f_month f) (f_day f) (f_hour f) (f_min f) (f_sec f) in
  match f_zone f with
  | None => mkTime wall (f_nsec f) UTC
  | Some zoneOffset =>
      let s := wall - zoneOffset in
      if tz s =? zoneOffset then mkTime s (f_nsec f) Local
      else mkTime s (f_nsec f) (FixedZone zoneOffset)
  end.

Inductive ParseError := errParse.

(** [time.Parse(time.RFC3339, value)]: a [Time] and an error; the [Time]
    is [Time{}] whenever the error is not nil. *)
Definition Parse (tz : ZoneRules) (value : string) : Time * option ParseError :=
  match parse_fields value with
  | Some f => (of_fields tz f, None)
  | None => (zero, Some errParse)
  end.

(** *** Words of the specification *)

(** A [Time] is well formed when its nanoseconds are below one second. *)
Definition wf (t : Time) : Prop := 0 <= nsec t < 1000000000.

(** Two digits, zero-padded: what the spec writes [HH] and [MM]. *)
Definition digit (d : Z) : ascii := ascii_of_nat (48 + Z.to_nat d).

Definition two_digits (x : Z) : string :=
  String (digit (x / 10)) (String (digit (x mod 10)) EmptyString).

End time.

(** ** The collaborators' data *)

(** Line feed, the ["\n"] of the format strings. *)
Definition LF : string := String (ascii_of_nat 10) EmptyString.

Module oauth2.

(** [oauth2.Token]; the program holds it by pointer, so a token that may
    be nil is an [option Token]. *)
Record Token := mkToken {
  AccessToken : string;
  TokenType : string;
  RefreshToken : string;
  Expiry : time.Time
}.

(** [&oauth2.Token{}] *)
Definition empty : Token := mkToken "" "" "" time.zero.

(** [oauth2.Config], as [google.ConfigFromJSON] fills it. *)
Record Config := mkConfig {
  ClientID : string;
  ClientSecret : string;
  RedirectURL : string;
  Scopes : list string
}.

Definition set_Expiry (t : Token) (e : time.Time) : Token :=
  mkToken (AccessToken t) (TokenType t) (RefreshToken t) e.

End oauth2.

Module calendar.

(** [calendar.EventDateTime]; [run] reads [DateTime] only. *)
Record EventDateTime := mkEventDateTime { DateTime : string }.

(** [calendar.Event]; [run] reads [Start] and [Summary] only.  The
    service sends a start object with every event, so [Start] is taken as
    present. *)
Record Event := mkEvent { Start : EventDateTime; Summary : string }.

(** [calendar.CalendarListEntry]; [list] reads these two fields. *)
Record CalendarListEntry := mkEntry { Id : string; Description : string }.

Definition CalendarReadonlyScope : string :=
  "https://www.googleapis.com/auth/calendar.readonly".

End calendar.

(** Modelled from the spec: the declaration of [BarItem], which [run] fills
    and encodes but which is not in [main.go].  The spec gives it as the
    pair [(text, tooltip)] written as the JSON object
    [{"text": string, "tooltip": string}]. *)
Record BarItem := mkBarItem { Text : string; Tooltip : string }.

(** Go [error] values.  The first five are the collaborators' own errors;
    [errs_Wrap] and [errs_Errorf] are what [main.go] makes of them with
    [github.com/zeebo/errs/v2]. *)
Inductive error :=
| PathError (op path : string)
| SyntaxError (pkg : string)
| RetrieveError
| googleapi_Error (code : Z)
| io_EOF
| errors_New (msg : string)
| errs_Wrap (e : error)
| errs_Errorf (format : string) (file : string) (cause : error).

(** A collaborator's answer: a value or an error. *)
Inductive res (A : Type) := Ok (a : A) | Err (e : error).
Arguments Ok {A} a.
Arguments Err {A} e.

(** Everything [main.go] asks of the outside, as read-only oracles. *)
Record Env := mkEnv {
  (** [user.Current()]: the home directory, or an error *)
  user_Current : res string;
  (** [ioutil.ReadFile(path)] *)
  ReadFile : string -> res string;
  (** [ioutil.WriteFile(path, data, 0600)]: its error, if any *)
  WriteFile : string -> string -> option error;
  (** the wall clock: the instant of the k-th call of [time.Now()], in
      nanoseconds since the zero time *)
  clock : nat -> Z;
  (** the rules of the local time zone *)
  local : time.ZoneRules;
  (** [google.ConfigFromJSON(content, scope)] *)
  ConfigFromJSON : string -> string -> res oauth2.Config;
  (** [json.Unmarshal(content, t)] on an empty token: what it leaves in
      [t], and its error *)
  Unmarshal_Token : string -> oauth2.Token * option error;
  (** [json.Marshal] of a token that is not nil *)
  Marshal_Token : oauth2.Token -> res string;
  (** [config.AuthCodeURL("no-state", oauth2.AccessTypeOffline)] *)
  AuthCodeURL : oauth2.Config -> string;
  (** [config.Exchange(ctx, code)] *)
  Exchange : oauth2.Config -> string -> res oauth2.Token;
  (** the token endpoint, asked for a new token with a refresh token *)
  Refresh : oauth2.Config -> string -> res oauth2.Token;
  (** [calendar.NewService(ctx, option.WithTokenSource(...))] *)
  NewService : oauth2.Config -> oauth2.Token -> option error;
  (** [service.CalendarList.List().Do()] *)
  CalendarList_Do : oauth2.Config -> oauth2.Token -> res (list calendar.CalendarListEntry);
  (** [service.Events.List(id).TimeMin(a).SingleEvents(true).TimeMax(b).Do()] *)
  Events_Do : oauth2.Config -> oauth2.Token -> string -> string -> string
              -> res (list calendar.Event)
}.

(** What a command does that can be seen from outside, in order. *)
Inductive Effect :=
| Println (s : string)                       (* fmt.Println, fmt.Printf *)
| Encode (b : BarItem)                       (* one JSON object on stdout *)
| Query (id timeMin timeMax : string)        (* the events request *)
| ListRequest                                (* the calendar-list request *)
| RefreshRequest (refreshToken : string)     (* token endpoint, refresh *)
| ExchangeRequest (code : string)            (* token endpoint, auth code *)
| FileWritten (path data : string)           (* ioutil.WriteFile *)
| Logged (msg : string).                     (* package log, on stderr *)

Record State := mkState {
  ticks : nat;              (* calls of time.Now() so far *)
  stdin : list string;      (* the words not yet read from standard input *)
  trace : list Effect
}.

Definition start_state (input : list string) : State := mkState 0 input [].

(** The two ways the process ends inside a call instead of returning to
    [main]: [log.Fatalf] (which logs and calls [os.Exit(1)]) and the runtime
    panic of a nil pointer dereference. *)
Inductive Abort := os_Exit1 | nil_dereference.

(** A Go function with effects: from a state to a value or an abort, and
    the state it leaves. *)
Definition M (A : Type) : Type := State -> (A + Abort) * State.

Definition ret {A} (a : A) : M A := fun st => (inl a, st).

Definition bind {A B} (m : M A) (k : A -> M B) : M B :=
  fun st =>
    match m st with
    | (inl a, st') => k a st'
    | (inr ab, st') => (inr ab, st')
    end.

Definition abort {A} (ab : Abort) : M A := fun st => (inr ab, st).

Declare Scope go_scope.
Delimit Scope go_scope with go.
Notation "x <- m ;; k" := (bind m (fun x => k))
  (at level 61, m at next level, right associativity) : go_scope.
Notation "' p <- m ;; k" := (bind m (fun x => match x with p => k end))
  (at level 61, p pattern, m at next level, right associativity) : go_scope.
Notation "m ;;; k" := (bind m (fun _ => k))
  (at level 61, right associativity) : go_scope.

Definition emit (e : Effect) : M unit :=
  fun st => (inl tt, mkState (ticks st) (stdin st) (trace st ++ [e])%list).

(** [log.Fatalf(format, v...)] *)
Definition log_Fatalf {A} (msg : string) : M A :=
  fun st => (inr os_Exit1, mkState (ticks st) (stdin st) (trace st ++ [Logged msg])%list).

(** [fmt.Scan(&v)]: the next word of standard input goes into [v]; at the
    end of the input [v] keeps its value and the error is [io.EOF]. *)
Definition fmt_Scan (v : string) : M (string * option error) :=
  fun st =>
    match stdin st with
    | w :: rest => (inl (w, None), mkState (ticks st) rest (trace st))
    | [] => (inl (v, Some io_EOF), st)
    end.

(** [path.Join(dir, name)] for a directory that [path.Clean] leaves as it
    is. *)
Definition path_Join (dir name : string) : string := dir ++ "/" ++ name.

(** [strings.ReplaceAll(s, old, new)] for a non-empty [old]: the
    occurrences are replaced from the left and do not overlap. *)
Fixpoint ReplaceAll_from (skip : nat) (s old new : string) : string :=
  match s with
  | EmptyString => EmptyString
  | String c rest =>
      match skip with
      | S n => ReplaceAll_from n rest old new
      | O =>
          if String.prefix old s
          then new ++ ReplaceAll_from (String.length old - 1) rest old new
          else String c (ReplaceAll_from O rest old new)
      end
  end.

Definition strings_ReplaceAll (s old new : string) : string :=
  ReplaceAll_from O s old new.

(** [err.Error()], the text [fmt.Println(err)] and [log.Fatalf] show. *)
Fixpoint Error (e : error) : string :=
  match e with
  | PathError op path => op ++ " " ++ path
  | SyntaxError pkg => pkg ++ ": syntax error"
  | RetrieveError => "oauth2: cannot fetch token"
  | googleapi_Error code => "googleapi: Error " ++ time.appendInt code 0
  | io_EOF => "EOF"
  | errors_New msg => msg
  | errs_Wrap e => Error e
  | errs_Errorf _ file cause =>
      "Couldn't read credentials file from " ++ file ++ ": " ++ Error cause
  end.

(** The subcommand [cobra] dispatches to, with its flags. *)
Inductive Command :=
| cmd_run (calendar : string)
| cmd_setup
| cmd_list.

(** The k-th reading of the clock, as [time.Now()] returns it: in the
    local zone. *)
Definition reading (env : Env) (k : nat) : time.Time :=
  time.mkTime (clock env k / 1000000000) (clock env k mod 1000000000) time.Local.

(** ** The functions of [main.go] *)

Section Program.

Variable env : Env.

(** [sort.Slice(x, less)], Go's library sort.  [main.go] fixes the
    comparison, the library fixes the result; what the library promises
    about the result is [sort_Slice_spec], further down. *)
Variable sort_Slice :
  (calendar.Event -> calendar.Event -> bool) -> list calendar.Event -> list calendar.Event.

Local Open Scope go_scope.

(** [time.Now()]: the next reading of the clock, in the local zone. *)
Definition time_Now : M time.Time :=
  fun st =>
    (inl (reading env (ticks st)), mkState (S (ticks st)) (stdin st) (trace st)).

(** [func getConfigDir(dir string) string] *)
Definition getConfigDir (dir : string) : string :=
  match user_Current env with
  | Err _ => dir
  | Ok HomeDir => strings_ReplaceAll dir "${HOME}" HomeDir
  end.

(** [func readCredentials(configDir string)], which returns a config
    pointer and an error.  Every [return] has either the config or the
    error, so the pair is a [res]; a credentials file that does not parse
    does not reach a [return] at all. *)
Definition readCredentials (configDir : string) : M (res oauth2.Config) :=
  let credentialFile := path_Join configDir "credentials.json" in
  match ReadFile env credentialFile with
  | Err err =>
      ret (Err (errs_Errorf "Couldn't read credentials file from %s: %v" credentialFile err))
  | Ok content =>
      match ConfigFromJSON env content calendar.CalendarReadonlyScope with
      | Err err => log_Fatalf ("Couldn't parse configuration: " ++ Error err)
      | Ok config => ret (Ok config)
      end
  end.

(** [func readToken(dir string)], which returns a token pointer and an
    error.  The token is never nil: it comes back next to the error
    too. *)
Definition readToken (dir : string) : M (oauth2.Token * option error) :=
  let t := oauth2.empty in
  match ReadFile env (path_Join dir "token.json") with
  | Err err => ret (t, Some (errs_Wrap err))
  | Ok content =>
      match Unmarshal_Token env content with
      | (t, Some err) => ret (t, Some (errs_Wrap err))
      | (t, None) => ret (t, None)
      end
  end.

(** [oauth2]'s [Token.Valid]:
    [t != nil && t.AccessToken != "" && !t.expired()], where [expired]
    compares the expiry, less ten seconds, with [time.Now()]. *)
Definition expiryDelta : time.Duration := 10 * time.Second.

Definition Token_expired (t : oauth2.Token) : M bool :=
  if time.IsZero (oauth2.Expiry t) then ret false
  else
    now <- time_Now ;;
    ret (time.Before (time.Add (oauth2.Expiry t) (- expiryDelta)) now).

Definition Token_Valid (t : option oauth2.Token) : M bool :=
  match t with
  | None => ret false
  | Some t =>
      if String.eqb (oauth2.AccessToken t) "" then ret false
      else (expired <- Token_expired t ;; ret (negb expired))
  end.

(** [config.TokenSource(ctx, t).Token()]: the token itself while it is
    valid, else a new one from the token endpoint. *)
Definition TokenSource_Token (config : oauth2.Config) (t : option oauth2.Token)
  : M (option oauth2.Token * option error) :=
  valid <- Token_Valid t ;;
  if valid then ret (t, None)
  else
    let refreshToken := match t with Some t => oauth2.RefreshToken t | None => "" end in
    if String.eqb refreshToken ""
    then ret (None, Some (errors_New "oauth2: token expired and refresh token is not set"))
    else
      emit (RefreshRequest refreshToken) ;;;
      match Refresh env config refreshToken with
      | Ok tk => ret (Some tk, None)
      | Err err => ret (None, Some err)
      end.

(** [json.Marshal(token)] for a [*oauth2.Token]: a nil pointer is
    [null]. *)
Definition json_Marshal (token : option oauth2.Token) : res string :=
  match token with
  | None => Ok "null"
  | Some t => Marshal_Token env t
  end.

(** [ioutil.WriteFile(path, data, 0600)] *)
Definition ioutil_WriteFile (path data : string) : M (option error) :=
  match WriteFile env path data with
  | Some err => ret (Some err)
  | None => emit (FileWritten path data) ;;; ret None
  end.

(** Lines 83 to 88 of [setup]: with a refresh token at hand a new token is
    asked for; an error is printed and the token is then nil. *)
Definition setup_refresh (config : oauth2.Config) (token : option oauth2.Token)
  : M (option oauth2.Token) :=
  if negb (String.eqb
             (match token with Some t => oauth2.RefreshToken t | None => "" end) "")
  then
    ' (token, err) <- TokenSource_Token config token ;;
    match err with
    | Some err => emit (Println (Error err)) ;;; ret token
    | None => ret token
    end
  else ret token.

(** Lines 90 to 108 of [setup]: the authorization-code flow.  The inner
    [token] is the one [config.Exchange] returns, nil next to an error. *)
Definition setup_authorize (configDir : string) (config : oauth2.Config)
  : M (option error) :=
  emit (Println (AuthCodeURL env config)) ;;;
  let authCode := "" in
  ' (authCode, err) <- fmt_Scan authCode ;;
  match err with
  | Some err => ret (Some (errs_Wrap err))
  | None =>
      emit (ExchangeRequest authCode) ;;;
      let '(token, err) :=
        match Exchange env config authCode with
        | Ok tk => (Some tk, None)
        | Err err => (None, Some err)
        end in
      (* if err != nil { fmt.Scan(&authCode) }: a second code is read, and
         that is all that is done with it *)
      rescan <-
        match err with
        | Some _ => ' (_, err) <- fmt_Scan authCode ;; ret err
        | None => ret None
        end ;;
      match rescan with
      | Some err => ret (Some (errs_Wrap err))
      | None =>
          match json_Marshal token with
          | Err err => ret (Some (errs_Wrap err))
          | Ok tokenBytes =>
              err <- ioutil_WriteFile (path_Join configDir "token.json") tokenBytes ;;
              match err with
              | Some err => ret (Some (errs_Wrap err))
              | None => ret None
              end
          end
      end
  end.

(** [func setup(configDir string) (err error)] *)
Definition setup (configDir : string) : M (option error) :=
  r <- readCredentials configDir ;;
  match r with
  | Err err => ret (Some (errs_Wrap err))
  | Ok config =>
      ' (token, _) <- readToken configDir ;;
      now <- time_Now ;;
      let token := Some (oauth2.set_Expiry token (time.Add now (- time.Hour))) in
      valid <- Token_Valid token ;;
      if negb valid then
        token <- setup_refresh config token ;;
        valid <- Token_Valid token ;;
        if negb valid then setup_authorize configDir config
        else ret None
      else ret None
  end.

(** [for _, cal := range calendars.Items { fmt.Printf("%s %s\n", ...) }] *)
Fixpoint print_calendars (items : list calendar.CalendarListEntry) : M unit :=
  match items with
  | [] => ret tt
  | cal :: rest =>
      emit (Println (calendar.Id cal ++ " " ++ calendar.Description cal ++ LF)) ;;;
      print_calendars rest
  end.

(** [func list(configDir string) error] *)
Definition list_ (configDir : string) : M (option error) :=
  r <- readCredentials configDir ;;
  match r with
  | Err err => ret (Some (errs_Wrap err))
  | Ok config =>
      ' (token, err) <- readToken configDir ;;
      match err with
      | Some err => ret (Some err)
      | None =>
          match NewService env config token with
          | Some err => ret (Some (errs_Wrap err))
          | None =>
              emit ListRequest ;;;
              match CalendarList_Do env config token with
              | Err err => ret (Some (errs_Wrap err))
              | Ok calendars => print_calendars calendars ;;; ret None
              end
          end
      end
  end.

(** [start, _ := time.Parse(time.RFC3339, e.Start.DateTime)]: the error
    is dropped, the [Time] is used. *)
Definition start (e : calendar.Event) : time.Time :=
  fst (time.Parse (local env) (calendar.DateTime (calendar.Start e))).

(** The closure given to [sort.Slice].  Go passes indices and the closure
    reads the slice that is being sorted; here it takes the two elements
    themselves. *)
Definition less (a b : calendar.Event) : bool := time.Before (start a) (start b).

(** [fmt.Sprintf("%s %s", start.Format("15:04"), e.Summary)] *)
Definition label (e : calendar.Event) : string :=
  time.Format_1504 (local env) (start e) ++ " " ++ calendar.Summary e.

(** [jsonOutput.Encode(item)] on [os.Stdout]: one JSON object and a line
    feed.  Writing to standard output is taken to succeed. *)
Definition json_Encode (item : BarItem) : M (option error) :=
  emit (Encode item) ;;; ret None.

Definition grace : time.Duration := 5 * time.Minute.

(** The loop of [run] (lines 186 to 193) over the items still to come:
    [next] and [alt] are its two variables.  [time.Now()] is read anew at every event
    as long as [next] is nil, and not at all afterwards. *)
Fixpoint run_loop (items : list calendar.Event) (next : option calendar.Event)
  (alt : string) : M (option calendar.Event * string) :=
  match items with
  | [] => ret (next, alt)
  | item :: rest =>
      next <-
        match next with
        | None =>
            now <- time_Now ;;
            ret (if time.Before now (time.Add (start item) grace)
                 then Some item else None)
        | Some _ => ret next
        end ;;
      run_loop rest next (alt ++ label item ++ LF)
  end.

(** Lines 171 to 199 of [run]: what it does with the fetched events. *)
Definition run_output (events_Items : list calendar.Event) : M (option error) :=
  let events_Items := sort_Slice less events_Items in
  if (List.length events_Items =? 0)%nat then json_Encode (mkBarItem "" "")
  else
    ' (next, alt) <- run_loop events_Items None "" ;;
    match next with
    | None => abort nil_dereference   (* next.Start *)
    | Some next => json_Encode (mkBarItem (label next) alt)
    end.

(** The day window of lines 164 and 165. *)
Definition window (now : time.Time) : time.Time * time.Time :=
  let from := time.Truncate now (time.Hour * 24) in
  let to := time.Add from (time.Hour * 24) in
  (from, to).

(** [func run(configDir string, id string) (err error)] *)
Definition run (configDir id : string) : M (option error) :=
  r <- readCredentials configDir ;;
  match r with
  | Err err => ret (Some (errs_Wrap err))
  | Ok config =>
      ' (token, err) <- readToken configDir ;;
      match err with
      | Some err => ret (Some err)
      | None =>
          match NewService env config token with
          | Some err => ret (Some (errs_Wrap err))
          | None =>
              now <- time_Now ;;
              let '(from, to) := window now in
              let timeMin := time.Format_RFC3339 (local env) from in
              let timeMax := time.Format_RFC3339 (local env) to in
              emit (Query id timeMin timeMax) ;;;
              match Events_Do env config token id timeMin timeMax with
              | Err err => ret (Some (errs_Wrap err))
              | Ok events_Items => run_output events_Items
              end
          end
      end
  end.

(** The default of the [--config-dir] flag. *)
Definition default_config_dir : string :=
  "${HOME}/.config/waybar-google-calendar-check".

(** [func main()]: [cobra] runs the [RunE] of the chosen subcommand, each
    of which resolves the directory with [getConfigDir]; an error it returns
    is logged by [log.Fatalf], which exits with status 1.  The result is
    the exit status of the process: 0 after a normal return, 1 after
    [log.Fatalf], 2 after a runtime panic. *)
Definition RunE (configDir : string) (cmd : Command) : M (option error) :=
  match cmd with
  | cmd_run calendar => run (getConfigDir configDir) calendar
  | cmd_setup => setup (getConfigDir configDir)
  | cmd_list => list_ (getConfigDir configDir)
  end.

Definition main (configDir : string) (cmd : Command) : State -> Z * State :=
  fun st =>
    match RunE configDir cmd st with
    | (inl None, st') => (0, st')
    | (inl (Some err), st') =>
        (1, mkState (ticks st') (stdin st') (trace st' ++ [Logged (Error err)])%list)
    | (inr os_Exit1, st') => (1, st')
    | (inr nil_dereference, st') => (2, st')
    end.

End Program.

(** ** Words of the specification *)

(** What [sort.Slice] asks of [less]: a strict weak ordering. *)
Definition StrictWeak {A} (less : A -> A -> bool) : Prop :=
  (forall a b, less a b = true -> less b a = false) /\
  (forall a b c, less b a = false -> less c b = false -> less c a = false).

(** No element is less than one that stands before it. *)
Definition ordered_by {A} (less : A -> A -> bool) (l : list A) : Prop :=
  StronglySorted (fun a b => less b a = false) l.

(** What [sort.Slice] promises: the slice holds the same elements, ordered
    by [less].  Its documentation adds: "The sort is not guaranteed to be
    stable: equal elements may be reversed from their original order." *)
Definition sort_Slice_spec
  (sort : (calendar.Event -> calendar.Event -> bool)
          -> list calendar.Event -> list calendar.Event) : Prop :=
  forall less l, StrictWeak less ->
    Permutation l (sort less l) /\ ordered_by less (sort less l).

(** Stability: the events that start at the same instant as [x] stand in
    [out] in the order they have in [l], for every [x]. *)
Definition stable (env : Env) (l out : list calendar.Event) : Prop :=
  forall x,
    filter (fun e => time.Equal (start env e) (start env x)) out
    = filter (fun e => time.Equal (start env e) (start env x)) l.

(** The tooltip the spec describes: the line of every event, in order. *)
Fixpoint lines (env : Env) (l : list calendar.Event) : string :=
  match l with
  | [] => EmptyString
  | e :: r => (label env e ++ LF) ++ lines env r
  end.

(** An event is within the grace window at the instant [now]:
    [now < start + 5min]. *)
Definition in_grace (env : Env) (now : time.Time) (e : calendar.Event) : bool :=
  time.Before now (time.Add (start env e) grace).

(** The first event of [l] that is within the grace window, when the clock
    is read once for each event looked at, from its k-th reading on; and the
    number of readings that takes. *)
Fixpoint first_in_grace (env : Env) (k : nat) (l : list calendar.Event)
  : option calendar.Event :=
  match l with
  | [] => None
  | e :: r => if in_grace env (reading env k) e then Some e
              else first_in_grace env (S k) r
  end.

Fixpoint readings (env : Env) (k : nat) (l : list calendar.Event) : nat :=
  match l with
  | [] => O
  | e :: r => if in_grace env (reading env k) e then 1%nat
              else S (readings env (S k) r)
  end.

Definition advance (n : nat) (st : State) : State :=
  mkState (ticks st + n) (stdin st) (trace st).

(** The credentials and the token load from [configDir] and the service is
    created: [run] and [list] get as far as their request. *)
Definition ready (env : Env) (configDir : string)
  (config : oauth2.Config) (token : oauth2.Token) : Prop :=
  exists content tokenContent,
    ReadFile env (path_Join configDir "credentials.json") = Ok content /\
    ConfigFromJSON env content calendar.CalendarReadonlyScope = Ok config /\
    ReadFile env (path_Join configDir "token.json") = Ok tokenContent /\
    Unmarshal_Token env tokenContent = (token, None) /\
    NewService env config token = None.

(** The two bounds [run] sends when the clock is read for the k-th time. *)
Definition timeMin (env : Env) (k : nat) : string :=
  time.Format_RFC3339 (local env) (fst (window (reading env k))).

Definition timeMax (env : Env) (k : nat) : string :=
  time.Format_RFC3339 (local env) (snd (window (reading env k))).

(** [m] is 00:00:00 of the local day that [now] is in. *)
Definition local_midnight_of (env : Env) (now m : time.Time) : Prop :=
  time.nsec m = 0 /\
  time.abs (local env) m mod 86400 = 0 /\
  time.abs (local env) m / 86400 = time.abs (local env) now / 86400.

(** An error that went through [errs.Wrap] or was made by [errs.Errorf]. *)
Definition wrapped (e : error) : Prop :=
  match e with
  | errs_Wrap _ | errs_Errorf _ _ _ => True
  | _ => False
  end.

(** How often a trace asks the token endpoint to exchange a code. *)
Fixpoint exchanges (tr : list Effect) : nat :=
  match tr with
  | [] => O
  | ExchangeRequest _ :: r => S (exchanges r)
  | _ :: r => exchanges r
  end.


(** What a command may end with once the credentials are loaded: nil, a
    wrapped error, or a panic; never [os.Exit]. *)
Definition returns_wrapped (out : (option error + Abort) * State) : Prop :=
  match out with
  | (inl None, _) => True
  | (inl (Some err), _) => wrapped err
  | (inr os_Exit1, _) => False
  | (inr nil_dereference, _) => True
  end.

Definition add_effect (st : State) (e : Effect) : State :=
  mkState (ticks st) (stdin st) (trace st ++ [e])%list.

Definition tick (st : State) : State :=
  mkState (S (ticks st)) (stdin st) (trace st).

(** *** Words for what the commands do and never do *)

(** The character [c] does not occur in [s]. *)
Fixpoint free_of (c : ascii) (s : string) : bool :=
  match s with
  | EmptyString => true
  | String x r => negb (Ascii.eqb c x) && free_of c r
  end.

(** How many effects of a trace pass the test [p]. *)
Definition count (p : Effect -> bool) (tr : list Effect) : nat :=
  List.length (filter p tr).



Definition is_FileWritten (e : Effect) : bool :=
  match e with FileWritten _ _ => true | _ => false end.

Definition is_ExchangeRequest (e : Effect) : bool :=
  match e with ExchangeRequest _ => true | _ => false end.


(** The effects [list] can have: its request, the lines it prints, and the
    log line of [log.Fatalf]. *)
Definition list_effect (e : Effect) : bool :=
  match e with
  | ListRequest | Println _ | Logged _ => true
  | _ => false
  end.

(** The effects [setup] can have: what it prints, the two requests to the
    token endpoint, the log line of [log.Fatalf], and writing the file
    [token.json] of its directory. *)
Definition setup_effect (configDir : string) (e : Effect) : bool :=
  match e with
  | Println _ | RefreshRequest _ | ExchangeRequest _ | Logged _ => true
  | FileWritten path _ => String.eqb path (path_Join configDir "token.json")
  | _ => false
  end.

(** No two different events of [items] start at the same instant. *)
Definition distinct_starts (env : Env) (items : list calendar.Event) : Prop :=
  forall a b, In a items -> In b items -> a <> b ->
              time.Equal (start env a) (start env b) = false.

(** The line [list] prints for a calendar. *)
Definition calendar_line (cal : calendar.CalendarListEntry) : Effect :=
  Println (calendar.Id cal ++ " " ++ calendar.Description cal ++ LF).

(** The clock never runs backwards, and shows a time after the first hour
    of the year 1. *)
Definition clock_runs (env : Env) : Prop :=
  forall k, 3600000000000 < clock env k /\ clock env k <= clock env (S k).

(** A token that [Token.Valid] accepts at every reading of the clock: it
    has an access token and, unless its expiry is the zero time, the expiry
    less ten seconds is not before the reading. *)
Definition fresh (env : Env) (tk : oauth2.Token) : Prop :=
  String.eqb (oauth2.AccessToken tk) "" = false /\
  (time.IsZero (oauth2.Expiry tk) = true \/
   forall k, time.Before (time.Add (oauth2.Expiry tk) (- expiryDelta)) (reading env k) = false).

(** ** A sort that meets the library's promise, and example worlds *)

(** Insertion sort: each element goes in front of the sorted rest and
    moves right past the elements that are less than it, so it stays in
    front of its equals.  (From Go 1.19 on, [sort.Slice] sorts a slice of up
    to twelve elements by insertion.) *)
Fixpoint insert {A} (less : A -> A -> bool) (x : A) (l : list A) : list A :=
  match l with
  | [] => [x]
  | y :: r => if less y x then y :: insert less x r else x :: l
  end.

Fixpoint insertion_sort {A} (less : A -> A -> bool) (l : list A) : list A :=
  match l with
  | [] => []
  | x :: r => insert less x (insertion_sort less r)
  end.

(** A sort that orders by [less] just as well, and turns ties around. *)
Definition reversing_sort {A} (less : A -> A -> bool) (l : list A) : list A :=
  insertion_sort less (rev l).

(** What [sort.Slice] of Go 1.6 to 1.18 does with a slice of 7 to 12
    elements: one pass of shell sort with gap 6, which exchanges the
    elements at [i - 6] and [i] when the later one is less, and then an
    insertion sort.  The pairs of the pass do not overlap, so it is written
    on the first six elements and the rest.  (From Go 1.19 on such a slice
    goes to the insertion sort at once.) *)
Fixpoint gap_pass {A} (less : A -> A -> bool) (front back : list A)
  : list A * list A :=
  match front, back with
  | x :: f, y :: b =>
      let '(f', b') := gap_pass less f b in
      if less y x then (y :: f', x :: b') else (x :: f', y :: b')
  | _, _ => (front, back)
  end.

Definition gap6_sort {A} (less : A -> A -> bool) (l : list A) : list A :=
  let '(front, back) := gap_pass less (firstn 6 l) (skipn 6 l) in
  insertion_sort less (front ++ back)%list.

(** The instant an RFC3339 text names, in nanoseconds since the zero
    time. *)
Definition instant (text : string) : Z :=
  time.since_zero (fst (time.Parse (fun _ => 0) text)).

Definition event (dateTime summary : string) : calendar.Event :=
  calendar.mkEvent (calendar.mkEventDateTime dateTime) summary.

Definition a_config : oauth2.Config :=
  oauth2.mkConfig "client" "secret" "urn:ietf:wg:oauth:2.0:oob"
    [calendar.CalendarReadonlyScope].

Definition a_token : oauth2.Token := oauth2.mkToken "access" "Bearer" "refresh" time.zero.

(** A world in which every collaborator answers: the clock stands at
    [now], the local zone is [offset] seconds east of UTC, the service has
    the events [items]. *)
Definition world (now : Z) (offset : Z) (items : list calendar.Event) : Env :=
  mkEnv (Ok "/home/u")
        (fun _ => Ok "{}")
        (fun _ _ => None)
        (fun _ => now)
        (fun _ => offset)
        (fun _ _ => Ok a_config)
        (fun _ => (a_token, None))
        (fun _ => Ok "{token}")
        (fun _ => "https://accounts.example/auth")
        (fun _ _ => Ok a_token)
        (fun _ _ => Ok a_token)
        (fun _ _ => None)
        (fun _ _ => Ok [])
        (fun _ _ _ _ _ => Ok items).

(** The directory the default flag resolves to for the user of [world]. *)
Definition home_config_dir : string := "/home/u/.config/waybar-google-calendar-check".



(** A world before the first [setup]: the credentials are in place, there
    is no token file yet, and the token endpoint refuses the code ["first"]
    and accepts any other. *)
Definition world_first_code_refused : Env :=
  mkEnv (Ok "/home/u")
        (fun path =>
           if String.eqb path (path_Join home_config_dir "credentials.json")
           then Ok "{}" else Err (PathError "open" path))
        (fun _ _ => None)
        (fun _ => instant "2024-01-01T10:00:00Z")
        (fun _ => 0)
        (fun _ _ => Ok a_config)
        (fun _ => (a_token, None))
        (fun _ => Ok "{token}")
        (fun _ => "https://accounts.example/auth")
        (fun _ code => if String.eqb code "first" then Err RetrieveError else Ok a_token)
        (fun _ _ => Ok a_token)
        (fun _ _ => None)
        (fun _ _ => Ok [])
        (fun _ _ _ _ _ => Ok []).

(** A world with credentials and a stored token [stored]; the token
    endpoint answers a refresh with [a_token], which never expires. *)
Definition world_with_token (stored : oauth2.Token) : Env :=
  mkEnv (Ok "/home/u")
        (fun _ => Ok "{}")
        (fun _ _ => None)
        (fun _ => instant "2024-01-01T10:00:00Z")
        (fun _ => 0)
        (fun _ _ => Ok a_config)
        (fun _ => (stored, None))
        (fun _ => Ok "{token}")
        (fun _ => "https://accounts.example/auth")
        (fun _ _ => Ok a_token)
        (fun _ _ => Ok a_token)
        (fun _ _ => None)
        (fun _ _ => Ok [])
        (fun _ _ _ _ _ => Ok []).

(** A stored token with no refresh token that would be good until 2030. *)
Definition long_lived_token : oauth2.Token :=
  oauth2.mkToken "access" "Bearer" ""
    (fst (time.Parse (fun _ => 0) "2030-01-01T00:00:00Z")).

(** ** Facts about [time] *)

Module time_facts.
Import time.

Lemma zero_wf : wf zero.
Proof. unfold wf; simpl; lia. Qed.

Lemma Add_since_zero t d :
  wf t -> since_zero (Add t d) = since_zero t + d /\ wf (Add t d).
Proof.
  unfold wf, since_zero, Add; intros Hns.
  pose proof (Z.quot_rem' d 1000000000) as Hqr.
  pose proof (Z.rem_bound_abs d 1000000000 ltac:(lia)) as Hb.
  set (q := Z.quot d 1000000000) in *.
  set (r := Z.rem d 1000000000) in *.
  destruct (1000000000 <=? nsec t + r) eqn:E1; [apply Z.leb_le in E1|apply Z.leb_gt in E1].
  - simpl; lia.
  - destruct (nsec t + r <? 0) eqn:E2; [apply Z.ltb_lt in E2|apply Z.ltb_ge in E2];
      simpl; lia.
Qed.

Lemma Add_loc t d : loc (Add t d) = loc t.
Proof.
  unfold Add.
  destruct (1000000000 <=? _); [reflexivity|].
  destruct (_ <? 0); reflexivity.
Qed.

(** On well-formed times [Before] is the order of the instants. *)
Lemma Before_since_zero t u :
  wf t -> wf u -> Before t u = true <-> since_zero t < since_zero u.
Proof.
  unfold wf, Before, since_zero; intros Ht Hu.
  rewrite orb_true_iff, andb_true_iff, Z.ltb_lt, Z.eqb_eq, Z.ltb_lt.
  split.
  - intros [H|[H1 H2]]; nia.
  - intros H.
    destruct (Z.lt_trichotomy (sec t) (sec u)) as [L|[L|L]]; [now left|right; nia|nia].
Qed.

Lemma Before_false_since_zero t u :
  wf t -> wf u -> Before t u = false <-> since_zero u <= since_zero t.
Proof.
  intros Ht Hu.
  pose proof (Before_since_zero t u Ht Hu) as H.
  destruct (Before t u); split; intros; try discriminate; try reflexivity.
  - assert (since_zero t < since_zero u) by (apply H; reflexivity). lia.
  - apply Z.nlt_ge. intros L. apply H in L. discriminate.
Qed.

(** [Before] is asymmetric, and "not before" is transitive: it compares
    the pair (seconds, nanoseconds) in dictionary order. *)
Lemma Before_asym t u : Before t u = true -> Before u t = false.
Proof.
  unfold Before.
  rewrite orb_true_iff, andb_true_iff, orb_false_iff, andb_false_iff.
  rewrite !Z.ltb_lt, !Z.eqb_eq, !Z.ltb_ge, Z.eqb_neq. lia.
Qed.

Lemma not_Before_trans t u v :
  Before u t = false -> Before v u = false -> Before v t = false.
Proof.
  unfold Before.
  rewrite !orb_false_iff, !andb_false_iff, !Z.ltb_ge, !Z.eqb_neq. lia.
Qed.

Lemma Before_irrefl t : Before t t = false.
Proof.
  unfold Before. rewrite Z.ltb_irrefl, Z.ltb_irrefl, andb_false_r. reflexivity.
Qed.

(** [Truncate] rounds the instant down to a multiple of [d]. *)
Lemma Truncate_since_zero t d :
  wf t -> 0 < d ->
  since_zero (Truncate t d) = d * (since_zero t / d) /\ wf (Truncate t d).
Proof.
  intros Ht Hd. unfold Truncate.
  destruct (d <=? 0) eqn:E; [apply Z.leb_le in E; lia|].
  destruct (Add_since_zero t (- (since_zero t mod d)) Ht) as [H1 H2].
  split; [|exact H2].
  rewrite H1. pose proof (Z.div_mod (since_zero t) d ltac:(lia)). lia.
Qed.

Lemma appendInt_two_digits x : 0 <= x < 100 -> appendInt x 2 = two_digits x.
Proof.
  intros Hx.
  assert (E : exists n, (n < 100)%nat /\ x = Z.of_nat n)
    by (exists (Z.to_nat x); lia).
  destruct E as [n [Hn ->]]. clear Hx.
  do 100 (destruct n as [|n]; [vm_compute; reflexivity|]).
  lia.
Qed.

(** *** What [parse_fields] lets through *)

Lemma getnum_range s fixed n r : getnum s fixed = Some (n, r) -> 0 <= n < 100.
Proof.
  assert (D : forall c, isDigit c = true -> 0 <= digitVal c <= 9).
  { intros c. unfold isDigit, digitVal.
    rewrite andb_true_iff, Nat.leb_le, Nat.leb_le. lia. }
  unfold getnum.
  destruct s as [|c0 rest0]; [discriminate|].
  destruct (isDigit c0) eqn:E0; [|discriminate].
  pose proof (D c0 E0).
  destruct rest0 as [|c1 rest1].
  - destruct fixed; [discriminate|]. intros [= <- _]. lia.
  - destruct (isDigit c1) eqn:E1.
    + pose proof (D c1 E1). intros [= <- _]. lia.
    + destruct fixed; [discriminate|]. intros [= <- _]. lia.
Qed.

Lemma guard_true b u : guard b = Some u -> b = true.
Proof. destruct b; [reflexivity|discriminate]. Qed.

Ltac parse_step :=
  match goal with
  | H : match ?c with Some _ => _ | None => None end = Some _ |- _ =>
      let E := fresh "E" in destruct c eqn:E; [|discriminate H]
  | H : (let '(_, _) := ?c in _) = Some _ |- _ =>
      let E := fresh "E" in destruct c eqn:E
  end.

(** The clock fields that come out of a successful parse are in range. *)
Lemma parse_fields_clock value f :
  parse_fields value = Some f ->
  0 <= f_hour f < 24 /\ 0 <= f_min f < 60 /\ 0 <= f_sec f < 60.
Proof.
  unfold parse_fields. intros H.
  repeat parse_step.
  injection H as <-. simpl.
  repeat match goal with
         | G : guard _ = Some _ |- _ => apply guard_true in G
         | G : getnum _ _ = Some _ |- _ => apply getnum_range in G
         end.
  repeat match goal with
         | G : negb (_ || _) = true |- _ =>
             rewrite negb_true_iff, orb_false_iff in G; destruct G
         end.
  repeat match goal with
         | G : (_ <? _) = false |- _ => apply Z.ltb_ge in G
         | G : (_ <=? _) = false |- _ => apply Z.leb_gt in G
         end.
  lia.
Qed.

(** The wall clock of a parsed time is the one written in the text,
    whatever zone the text names and whatever the local zone is. *)
Lemma of_fields_abs tz f :
  abs tz (of_fields tz f)
  = Date_sec (f_year f) (f_month f) (f_day f) (f_hour f) (f_min f) (f_sec f).
Proof.
  unfold of_fields, abs, offset.
  destruct (f_zone f) as [z|]; simpl.
  - destruct (tz _ =? z) eqn:E; simpl.
    + apply Z.eqb_eq in E. rewrite E. lia.
    + lia.
  - lia.
Qed.

Lemma Format_1504_of_fields tz f :
  0 <= f_hour f < 24 -> 0 <= f_min f < 60 -> 0 <= f_sec f < 60 ->
  Format_1504 tz (of_fields tz f) = two_digits (f_hour f) ++ ":" ++ two_digits (f_min f).
Proof.
  intros Hh Hm Hs. unfold Format_1504.
  rewrite of_fields_abs. unfold Date_sec.
  set (d := daysSinceZero _ + _ + _ + _).
  set (h := f_hour f) in *. set (m := f_min f) in *. set (s := f_sec f) in *.
  assert (Ec : (d * 86400 + h * 3600 + m * 60 + s) mod 86400 = h * 3600 + m * 60 + s).
  { symmetry. apply (Z.mod_unique _ _ d); lia. }
  rewrite Ec.
  assert (Eh : (h * 3600 + m * 60 + s) / 3600 = h).
  { symmetry. apply (Z.div_unique _ _ _ (m * 60 + s)); lia. }
  rewrite Eh.
  assert (Em : (h * 3600 + m * 60 + s - h * 3600) / 60 = m).
  { symmetry. apply (Z.div_unique _ _ _ s); lia. }
  rewrite Em.
  rewrite !appendInt_two_digits by lia. reflexivity.
Qed.

(** [Time{}] prints as midnight. *)
Lemma Format_1504_zero tz : Format_1504 tz zero = "00:00".
Proof. reflexivity. Qed.

End time_facts.

(** ** Facts about sorting *)

Section sorting_facts.

Context {A : Type} (less : A -> A -> bool).
Hypothesis less_sw : StrictWeak less.

Lemma insert_keeps x l : Permutation (x :: l) (insert less x l).
Proof.
  induction l as [|y r IH]; simpl.
  - apply Permutation_refl.
  - destruct (less y x).
    + eapply perm_trans; [apply perm_swap|]. apply perm_skip, IH.
    + apply Permutation_refl.
Qed.

Lemma insert_all (P : A -> Prop) x l :
  P x -> Forall P l -> Forall P (insert less x l).
Proof.
  intros Hx Hl. induction Hl as [|y r Hy Hr IH]; simpl.
  - constructor; [exact Hx|constructor].
  - destruct (less y x); repeat constructor; assumption.
Qed.

Lemma insert_ordered x l : ordered_by less l -> ordered_by less (insert less x l).
Proof.
  destruct less_sw as [asym ntrans].
  unfold ordered_by. intros Hl.
  induction Hl as [|y r Hr IH Hy]; simpl.
  - constructor; constructor.
  - destruct (less y x) eqn:E.
    + constructor; [exact IH|].
      apply insert_all; [apply asym, E|assumption].
    + constructor; [constructor; assumption|].
      constructor; [exact E|].
      eapply Forall_impl; [|exact Hy].
      intros z Hz. simpl in Hz. apply (ntrans x y z); [exact E|exact Hz].
Qed.

Lemma insertion_sort_keeps l : Permutation l (insertion_sort less l).
Proof.
  induction l as [|x r IH]; simpl.
  - constructor.
  - eapply perm_trans; [apply perm_skip, IH|apply insert_keeps].
Qed.

Lemma insertion_sort_ordered l : ordered_by less (insertion_sort less l).
Proof.
  induction l as [|x r IH]; simpl.
  - constructor.
  - apply insert_ordered, IH.
Qed.

End sorting_facts.

Lemma insertion_sort_spec : sort_Slice_spec (@insertion_sort calendar.Event).
Proof.
  intros less l Hsw. split.
  - apply insertion_sort_keeps.
  - apply insertion_sort_ordered, Hsw.
Qed.

Lemma reversing_sort_spec : sort_Slice_spec (@reversing_sort calendar.Event).
Proof.
  intros less l Hsw. unfold reversing_sort. split.
  - eapply perm_trans; [apply Permutation_rev|apply insertion_sort_keeps].
  - apply insertion_sort_ordered, Hsw.
Qed.

Lemma gap_pass_keeps {A} (less : A -> A -> bool) front back :
  Permutation (front ++ back)
    (fst (gap_pass less front back) ++ snd (gap_pass less front back)).
Proof.
  revert back. induction front as [|x f IH]; intros back; simpl.
  - apply Permutation_refl.
  - destruct back as [|y b]; simpl.
    + apply Permutation_refl.
    + specialize (IH b). destruct (gap_pass less f b) as [f' b']. simpl in IH.
      assert (Hb : Permutation (f' ++ b') (f ++ b)) by (apply Permutation_sym, IH).
      destruct (less y x); simpl.
      * (* x :: f ++ y :: b  ~  y :: f' ++ x :: b' *)
        eapply perm_trans; [apply perm_skip, Permutation_sym, Permutation_middle|].
        eapply perm_trans; [apply perm_swap|].
        apply perm_skip.
        eapply perm_trans; [|apply Permutation_middle].
        apply perm_skip, IH.
      * apply perm_skip.
        eapply perm_trans; [apply Permutation_sym, Permutation_middle|].
        eapply perm_trans; [|apply Permutation_middle].
        apply perm_skip, IH.
Qed.

Lemma gap6_sort_spec : sort_Slice_spec (@gap6_sort calendar.Event).
Proof.
  intros less l Hsw. unfold gap6_sort.
  pose proof (gap_pass_keeps less (firstn 6 l) (skipn 6 l)) as Hp.
  destruct (gap_pass less (firstn 6 l) (skipn 6 l)) as [front back].
  cbn [fst snd] in Hp. rewrite firstn_skipn in Hp.
  split.
  - eapply perm_trans; [exact Hp|apply insertion_sort_keeps].
  - apply insertion_sort_ordered, Hsw.
Qed.

(** Insertion sort is stable: an element only passes elements that are
    less than it, hence not its equals. *)
Lemma insert_filter {A} (less : A -> A -> bool) (p : A -> bool) x l :
  (forall y, less y x = true -> p y = true -> p x = false) ->
  filter p (insert less x l) = filter p (x :: l).
Proof.
  intros Hp. induction l as [|y r IH]; [reflexivity|].
  simpl insert. destruct (less y x) eqn:E; [|reflexivity].
  simpl in *. rewrite IH.
  destruct (p y) eqn:Py; [|reflexivity].
  rewrite (Hp y E Py). reflexivity.
Qed.

Lemma insertion_sort_stable env items :
  stable env items (insertion_sort (less env) items).
Proof.
  intros k. induction items as [|x r IH]; [reflexivity|].
  simpl insertion_sort. rewrite insert_filter.
  - simpl. rewrite IH. reflexivity.
  - intros y Hless Hy. unfold less in Hless.
    unfold time.Equal, time.Before in *.
    apply andb_true_iff in Hy. destruct Hy as [H1 H2].
    apply Z.eqb_eq in H1. apply Z.eqb_eq in H2.
    apply andb_false_iff.
    apply orb_true_iff in Hless.
    destruct Hless as [L|L].
    + apply Z.ltb_lt in L. left. apply Z.eqb_neq. lia.
    + apply andb_true_iff in L. destruct L as [L1 L2].
      apply Z.eqb_eq in L1. apply Z.ltb_lt in L2.
      right. apply Z.eqb_neq. lia.
Qed.

(** The comparison [run] gives to [sort.Slice] is a strict weak ordering,
    unparseable start times included. *)
Lemma less_StrictWeak env : StrictWeak (less env).
Proof.
  split; unfold less.
  - intros a b. apply time_facts.Before_asym.
  - intros a b c. apply time_facts.not_Before_trans.
Qed.

(** In an ordered list an element never comes after one it is less
    than. *)
Lemma ordered_by_nth {A} (less : A -> A -> bool) l i j a b :
  ordered_by less l -> (i < j)%nat ->
  nth_error l i = Some a -> nth_error l j = Some b -> less b a = false.
Proof.
  unfold ordered_by. intros Hl. revert i j.
  induction Hl as [|x r Hr IH Hx]; intros i j Hij Hi Hj.
  - destruct i; discriminate.
  - destruct j as [|j]; [lia|]. simpl in Hj.
    destruct i as [|i]; simpl in Hi.
    + injection Hi as ->.
      rewrite Forall_forall in Hx. apply Hx. eapply nth_error_In, Hj.
    + apply (IH i j); [lia|assumption|assumption].
Qed.

(** ** Facts about the loop of [run] *)

Lemma string_app_assoc (a b c : string) : ((a ++ b) ++ c)%string = (a ++ b ++ c)%string.
Proof. induction a as [|x a IH]; simpl; [reflexivity|now rewrite IH]. Qed.

Lemma string_app_nil_r (a : string) : (a ++ "")%string = a.
Proof. induction a as [|x a IH]; simpl; [reflexivity|now rewrite IH]. Qed.

Section loop_facts.

Variable env : Env.

(** Once [next] is set the loop only extends [alt]; the clock is not
    read. *)
Lemma run_loop_found items n alt st :
  run_loop env items (Some n) alt st
  = (inl (Some n, (alt ++ lines env items)%string), st).
Proof.
  revert alt. induction items as [|e r IH]; intros alt; simpl.
  - unfold ret. now rewrite string_app_nil_r.
  - unfold bind at 1. unfold ret at 1. rewrite IH.
    now rewrite !string_app_assoc.
Qed.

(** From [next == nil] the loop ends with the first event in grace, has
    the line of every event in [alt], and has read the clock once for
    each event up to that one. *)
Lemma run_loop_scan items alt st :
  run_loop env items None alt st
  = (inl (first_in_grace env (ticks st) items, (alt ++ lines env items)%string),
     advance (readings env (ticks st) items) st).
Proof.
  revert alt st. induction items as [|e r IH]; intros alt st; simpl.
  - unfold ret, advance. rewrite string_app_nil_r, Nat.add_0_r.
    now destruct st.
  - unfold bind at 1. unfold bind at 1. unfold time_Now, ret at 1.
    fold (in_grace env (reading env (ticks st)) e).
    destruct (in_grace env (reading env (ticks st)) e).
    + rewrite run_loop_found. unfold advance. simpl.
      now rewrite !string_app_assoc, Nat.add_1_r.
    + rewrite IH. unfold advance. simpl.
      now rewrite !string_app_assoc, Nat.add_succ_r.
Qed.

Lemma first_in_grace_none items :
  (forall k e, In e items -> in_grace env (reading env k) e = false) ->
  forall k, first_in_grace env k items = None.
Proof.
  induction items as [|e r IH]; intros H k; simpl.
  - reflexivity.
  - rewrite (H k e) by now left.
    apply IH. intros k' e' Hin. apply H. now right.
Qed.

Lemma first_in_grace_some items e :
  In e items -> (forall k, in_grace env (reading env k) e = true) ->
  forall k, exists next, first_in_grace env k items = Some next /\ In next items.
Proof.
  intros Hin He. induction items as [|x r IH]; intros k; simpl.
  - destruct Hin.
  - destruct (in_grace env (reading env k) x) eqn:E.
    + exists x. split; [reflexivity|now left].
    + destruct Hin as [->|Hin]; [rewrite He in E; discriminate|].
      destruct (IH Hin (S k)) as [n [Hn Hi]].
      exists n. split; [exact Hn|now right].
Qed.



End loop_facts.


(** ** The selection of the next event *)

Lemma first_in_grace_still env now items :
  (forall k, reading env k = now) ->
  forall k, first_in_grace env k items = find (in_grace env now) items.
Proof.
  intros Hc. induction items as [|e r IH]; intros k; simpl.
  - reflexivity.
  - rewrite (Hc k). destruct (in_grace env now e); [reflexivity|apply IH].
Qed.

(** C4.  Whatever the list and the instant [now] the clock shows, the loop
    of [run] leaves in [next] the first event of the list, in list order,
    with [now < start + 5min].  A single event that starts at 10:00 is
    selected at 10:04:59, and no event is selected at 10:05:01. *)
Theorem next_is_first_in_grace :
  (forall env now items st,
      (forall k, reading env k = now) ->
      exists st',
        run_loop env items None "" st
        = (inl (find (in_grace env now) items, lines env items), st')
        /\ trace st' = trace st)
  /\ (forall env summary st,
        (forall k, clock env k = instant "2024-01-01T10:04:59Z") ->
        exists alt st',
          run_loop env [event "2024-01-01T10:00:00Z" summary] None "" st
          = (inl (Some (event "2024-01-01T10:00:00Z" summary), alt), st'))
  /\ (forall env summary st,
        (forall k, clock env k = instant "2024-01-01T10:05:01Z") ->
        exists alt st',
          run_loop env [event "2024-01-01T10:00:00Z" summary] None "" st
          = (inl (None, alt), st')).
Proof.
  split; [|split].
  - intros env now items st Hc.
    exists (advance (readings env (ticks st) items) st).
    rewrite run_loop_scan, (first_in_grace_still env now items Hc).
    split; reflexivity.
  - intros env summary st Hc.
    rewrite run_loop_scan. do 2 eexists.
    simpl first_in_grace. unfold reading. rewrite Hc.
    reflexivity.
  - intros env summary st Hc.
    rewrite run_loop_scan. do 2 eexists.
    simpl first_in_grace. unfold reading. rewrite !Hc.
    reflexivity.
Qed.

Lemma next_is_first_in_grace_witness :
  let env := world (instant "2024-01-01T08:55:00Z") 0 [] in
  let items := [event "2024-01-01T08:00:00Z" "Early";
                event "2024-01-01T09:00:00Z" "Standup";
                event "2024-01-01T14:30:00Z" "Review"] in
  exists st',
    run_loop env items None "" (start_state [])
    = (inl (Some (event "2024-01-01T09:00:00Z" "Standup"), lines env items), st')
    /\ trace st' = [].
Proof.
  intros env items.
  exact (proj1 next_is_first_in_grace env (reading env O) items (start_state [])
           (fun k => eq_refl)).
Defined.

(** C1.  When the list is not empty and no event is within the grace
    window at any reading of the clock, the loop ends with [next] still
    nil, and [run] then dereferences it: the process panics and no
    [BarItem] is written. *)
Theorem no_event_in_grace_panics env sort items st :
  sort_Slice_spec sort ->
  items <> [] ->
  (forall k e, In e items -> in_grace env (reading env k) e = false) ->
  exists st',
    run_loop env (sort (less env) items) None "" st
    = (inl (None, lines env (sort (less env) items)), st')
    /\ run_output env sort items st = (inr nil_dereference, st')
    /\ trace st' = trace st.
Proof.
  intros Hsort Hne Hall.
  destruct (Hsort (less env) items (less_StrictWeak env)) as [Hperm _].
  set (sorted := sort (less env) items) in *.
  assert (Hnone : forall k, first_in_grace env k sorted = None).
  { apply first_in_grace_none. intros k e Hin. apply Hall.
    eapply Permutation_in; [apply Permutation_sym, Hperm|exact Hin]. }
  exists (advance (readings env (ticks st) sorted) st).
  split; [|split].
  - rewrite run_loop_scan, Hnone. reflexivity.
  - unfold run_output. fold sorted.
    destruct sorted as [|e r] eqn:Es.
    + apply Permutation_sym, Permutation_nil in Hperm. contradiction.
    + cbn [List.length Nat.eqb]. unfold bind.
      rewrite run_loop_scan, Hnone. reflexivity.
  - reflexivity.
Qed.

Lemma no_event_in_grace_panics_witness :
  let env := world (instant "2024-01-01T18:00:00Z") 0 [] in
  let items := [event "2024-01-01T14:30:00Z" "Review";
                event "2024-01-01T09:00:00Z" "Standup"] in
  exists st',
    run_loop env (insertion_sort (less env) items) None "" (start_state [])
    = (inl (None, lines env (insertion_sort (less env) items)), st')
    /\ run_output env insertion_sort items (start_state []) = (inr nil_dereference, st')
    /\ trace st' = [].
Proof.
  intros env items.
  apply (no_event_in_grace_panics env insertion_sort items (start_state [])
           insertion_sort_spec).
  - discriminate.
  - intros k e [<-|[<-|[]]]; vm_compute; reflexivity.
Defined.

(** C6.  When some event of the list is within the grace window, [run]
    writes one [BarItem] whose tooltip is the line ["HH:MM summary\n"] of
    every event of the list, the selected one and the earlier ones
    included, in the order [sort.Slice] leaves: the same events, by
    ascending start time. *)
Theorem tooltip_lists_every_event env sort items e st :
  sort_Slice_spec sort ->
  In e items ->
  (forall k, in_grace env (reading env k) e = true) ->
  exists next st',
    run_output env sort items st = (inl None, st')
    /\ trace st'
       = (trace st
            ++ [Encode (mkBarItem (label env next)
                          (lines env (sort (less env) items)))])%list
    /\ In next items
    /\ Permutation items (sort (less env) items)
    /\ ordered_by (less env) (sort (less env) items).
Proof.
  intros Hsort Hin He.
  destruct (Hsort (less env) items (less_StrictWeak env)) as [Hperm Hord].
  set (sorted := sort (less env) items) in *.
  assert (Hin' : In e sorted) by (eapply Permutation_in; eassumption).
  destruct (first_in_grace_some env sorted e Hin' He (ticks st)) as [next [Hn Hi]].
  exists next.
  exists (add_effect (advance (readings env (ticks st) sorted) st)
            (Encode (mkBarItem (label env next) (lines env sorted)))).
  split; [|split; [|split; [|split]]].
  - unfold run_output. fold sorted.
    destruct sorted as [|x r] eqn:Es; [destruct Hin'|].
    cbn [List.length Nat.eqb]. unfold bind at 1.
    rewrite run_loop_scan, Hn. reflexivity.
  - reflexivity.
  - eapply Permutation_in; [apply Permutation_sym, Hperm|exact Hi].
  - exact Hperm.
  - exact Hord.
Qed.

Lemma tooltip_lists_every_event_witness :
  let env := world (instant "2024-01-01T09:02:00Z") 0 [] in
  let items := [event "2024-01-01T14:30:00Z" "Review";
                event "2024-01-01T09:00:00Z" "Standup";
                event "2024-01-01T08:00:00Z" "Early"] in
  exists next st',
    run_output env insertion_sort items (start_state []) = (inl None, st')
    /\ trace st'
       = [Encode (mkBarItem (label env next)
                    ("08:00 Early" ++ LF ++ "09:00 Standup" ++ LF
                       ++ "14:30 Review" ++ LF))]
    /\ In next items
    /\ Permutation items (insertion_sort (less env) items)
    /\ ordered_by (less env) (insertion_sort (less env) items).
Proof.
  intros env items.
  apply (tooltip_lists_every_event env insertion_sort items
           (event "2024-01-01T09:00:00Z" "Standup") (start_state [])
           insertion_sort_spec).
  - right; left; reflexivity.
  - intros k. vm_compute. reflexivity.
Defined.

(** ** Events whose start does not parse *)

Lemma start_unparseable env e :
  time.parse_fields (calendar.DateTime (calendar.Start e)) = None ->
  start env e = time.zero.
Proof. unfold start, time.Parse. intros ->. reflexivity. Qed.



(** ** The order [sort.Slice] leaves *)

(** C2, as the code has it.  What [run] formats is the list [sort.Slice]
    leaves: the events of the input, each as often as there, with no event
    standing before one that starts earlier.  Events that start at different
    instants are therefore in ascending order; for events that start at the
    same instant the library promises no order. *)
Theorem sort_orders_by_start env sort items :
  sort_Slice_spec sort ->
  Permutation items (sort (less env) items)
  /\ forall i j a b,
      (i < j)%nat ->
      nth_error (sort (less env) items) i = Some a ->
      nth_error (sort (less env) items) j = Some b ->
      time.Before (start env b) (start env a) = false.
Proof.
  intros Hsort.
  destruct (Hsort (less env) items (less_StrictWeak env)) as [Hperm Hord].
  split; [exact Hperm|].
  intros i j a b Hij Hi Hj.
  exact (ordered_by_nth (less env) _ i j a b Hord Hij Hi Hj).
Qed.

Lemma sort_orders_by_start_witness :
  let env := world 0 0 [] in
  let items := [event "2024-01-01T14:30:00Z" "Review";
                event "2024-01-01T09:00:00Z" "Standup"] in
  Permutation items (insertion_sort (less env) items)
  /\ forall i j a b,
      (i < j)%nat ->
      nth_error (insertion_sort (less env) items) i = Some a ->
      nth_error (insertion_sort (less env) items) j = Some b ->
      time.Before (start env b) (start env a) = false.
Proof.
  intros env items.
  exact (sort_orders_by_start env insertion_sort items insertion_sort_spec).
Defined.

(** C2 as stated fails.  A sort that keeps the promise of [sort.Slice]
    may still exchange two events that start at the same instant; and the
    [sort.Slice] of Go up to 1.18 does so on a day of seven events, where
    the pass with gap 6 carries the last event, B at 09:00, over A at
    09:00. *)
Lemma equal_starts_may_swap :
  let env := world 0 0 [] in
  let A := event "2024-01-01T09:00:00Z" "A" in
  let B := event "2024-01-01T09:00:00Z" "B" in
  let day := [event "2024-01-01T16:00:00Z" "Late"; A;
              event "2024-01-01T10:00:00Z" "c"; event "2024-01-01T11:00:00Z" "d";
              event "2024-01-01T12:00:00Z" "e"; event "2024-01-01T13:00:00Z" "f"; B] in
  time.Equal (start env A) (start env B) = true
  /\ (sort_Slice_spec reversing_sort
      /\ reversing_sort (less env) [A; B] = [B; A]
      /\ ~ stable env [A; B] (reversing_sort (less env) [A; B]))
  /\ (sort_Slice_spec gap6_sort
      /\ gap6_sort (less env) day
         = [B; A; event "2024-01-01T10:00:00Z" "c"; event "2024-01-01T11:00:00Z" "d";
            event "2024-01-01T12:00:00Z" "e"; event "2024-01-01T13:00:00Z" "f";
            event "2024-01-01T16:00:00Z" "Late"]
      /\ ~ stable env day (gap6_sort (less env) day)).
Proof.
  intros env A B day.
  split; [reflexivity|split].
  - split; [exact reversing_sort_spec|]. split; [reflexivity|].
    intros Hst. specialize (Hst A). vm_compute in Hst. discriminate.
  - split; [exact gap6_sort_spec|]. split; [reflexivity|].
    intros Hst. specialize (Hst A). vm_compute in Hst. discriminate.
Qed.

(** ** How a start time is printed *)

Lemma start_parsed env e f :
  time.parse_fields (calendar.DateTime (calendar.Start e)) = Some f ->
  start env e = time.of_fields (local env) f.
Proof. unfold start, time.Parse. intros ->. reflexivity. Qed.

Lemma of_fields_sec tz f z :
  time.f_zone f = Some z ->
  time.sec (time.of_fields tz f)
  = time.Date_sec (time.f_year f) (time.f_month f) (time.f_day f)
      (time.f_hour f) (time.f_min f) (time.f_sec f) - z.
Proof.
  unfold time.of_fields. intros ->.
  destruct (tz _ =? z); reflexivity.
Qed.

(** C7.  The start of an event is printed as two digits, a colon and two
    digits, with no zone.  When the text parses, the digits are the hour and
    the minute written in the text, that is the wall clock at the offset the
    text itself names, whatever the local zone is; when it does not parse
    they are ["00:00"].  The start [2024-01-01T09:05:00+02:00] is printed
    ["09:05"], where the same instant in UTC would be ["07:05"]. *)
Theorem start_prints_in_its_own_offset :
  (forall env e f,
      time.parse_fields (calendar.DateTime (calendar.Start e)) = Some f ->
      time.Format_1504 (local env) (start env e)
      = (time.two_digits (time.f_hour f) ++ ":" ++ time.two_digits (time.f_min f))%string
      /\ 0 <= time.f_hour f < 24 /\ 0 <= time.f_min f < 60)
  /\ (forall env e,
        time.parse_fields (calendar.DateTime (calendar.Start e)) = None ->
        time.Format_1504 (local env) (start env e) = "00:00")
  /\ (forall env summary,
        let e := event "2024-01-01T09:05:00+02:00" summary in
        time.Format_1504 (local env) (start env e) = "09:05"
        /\ label env e = ("09:05 " ++ summary)%string
        /\ time.Format_1504 (local env)
             (time.mkTime (time.sec (start env e)) (time.nsec (start env e)) time.UTC)
           = "07:05").
Proof.
  assert (G : forall env e f,
      time.parse_fields (calendar.DateTime (calendar.Start e)) = Some f ->
      time.Format_1504 (local env) (start env e)
      = (time.two_digits (time.f_hour f) ++ ":" ++ time.two_digits (time.f_min f))%string
      /\ 0 <= time.f_hour f < 24 /\ 0 <= time.f_min f < 60).
  { intros env e f Hf.
    destruct (time_facts.parse_fields_clock _ _ Hf) as [Hh [Hm Hs]].
    rewrite (start_parsed env e f Hf).
    split; [apply time_facts.Format_1504_of_fields; assumption|split; assumption]. }
  split; [exact G|split].
  - intros env e Hbad. rewrite (start_unparseable env e Hbad). reflexivity.
  - intros env summary e.
    set (f := time.mkFields 2024 1 1 9 5 0 0 (Some 7200)).
    assert (Hf : time.parse_fields (calendar.DateTime (calendar.Start e)) = Some f)
      by reflexivity.
    destruct (G env e f Hf) as [Hfmt _].
    split; [exact Hfmt|split].
    + unfold label. rewrite Hfmt. reflexivity.
    + rewrite (start_parsed env e f Hf).
      unfold time.Format_1504, time.abs, time.offset. cbn [time.loc time.sec].
      rewrite (of_fields_sec (local env) f 7200 eq_refl). reflexivity.
Qed.

Lemma start_prints_in_its_own_offset_witness :
  let env := world 0 3600 [] in
  let e := event "2024-06-30T23:59:59-07:00" "Late" in
  time.Format_1504 (local env) (start env e) = "23:59"
  /\ 0 <= 23 < 24 /\ 0 <= 59 < 60.
Proof.
  intros env e.
  exact (proj1 start_prints_in_its_own_offset env e
           (time.mkFields 2024 6 30 23 59 59 0 (Some (-25200))) eq_refl).
Defined.

(** ** [run] as a whole *)

Lemma reading_wf env k : time.wf (reading env k).
Proof.
  unfold time.wf, reading; simpl.
  apply Z.mod_pos_bound. lia.
Qed.

Lemma reading_since_zero env k : time.since_zero (reading env k) = clock env k.
Proof.
  unfold time.since_zero, reading; simpl.
  pose proof (Z.div_mod (clock env k) 1000000000 ltac:(lia)). lia.
Qed.

(** What [run] does with the fetched events, case by case. *)
Lemma run_output_eq env sort items st :
  run_output env sort items st
  = match sort (less env) items with
    | [] => (inl None, add_effect st (Encode (mkBarItem "" "")))
    | sorted =>
        let st' := advance (readings env (ticks st) sorted) st in
        match first_in_grace env (ticks st) sorted with
        | None => (inr nil_dereference, st')
        | Some next =>
            (inl None,
             add_effect st' (Encode (mkBarItem (label env next) (lines env sorted))))
        end
    end.
Proof.
  unfold run_output.
  destruct (sort (less env) items) as [|x r]; [reflexivity|].
  cbn [List.length Nat.eqb]. unfold bind at 1. rewrite run_loop_scan.
  cbv zeta. destruct (first_in_grace env (ticks st) (x :: r)); reflexivity.
Qed.

(** Once the credentials, the token and the service are there, [run] reads
    the clock, sends its request, and goes on with the answer. *)
Lemma run_eq env sort configDir id st config token :
  ready env configDir config token ->
  let asked :=
    add_effect (tick st) (Query id (timeMin env (ticks st)) (timeMax env (ticks st))) in
  run env sort configDir id st
  = match Events_Do env config token id
            (timeMin env (ticks st)) (timeMax env (ticks st)) with
    | Err err => (inl (Some (errs_Wrap err)), asked)
    | Ok items => run_output env sort items asked
    end.
Proof.
  intros (content & tokenContent & Hc & Hj & Ht & Hu & Hs) asked.
  unfold run, readCredentials, readToken.
  rewrite Hc, Hj, Ht, Hu. unfold bind at 1. unfold ret at 1.
  unfold bind at 1. unfold ret at 1. rewrite Hs.
  unfold bind at 1. unfold time_Now.
  unfold timeMin, timeMax in *.
  destruct (window (reading env (ticks st))) as [from to] eqn:Ew.
  cbn [fst snd] in *.
  unfold bind at 1. unfold emit.
  fold (tick st). fold (add_effect (tick st)
    (Query id (time.Format_RFC3339 (local env) from) (time.Format_RFC3339 (local env) to))).
  destruct (Events_Do env config token id _ _); reflexivity.
Qed.

Lemma window_bounds now :
  time.wf now ->
  let from := fst (window now) in
  let to := snd (window now) in
  time.nsec from = 0 /\ time.sec from mod 86400 = 0
  /\ time.sec from <= time.sec now < time.sec from + 86400
  /\ time.nsec to = 0 /\ time.sec to = time.sec from + 86400
  /\ time.loc from = time.loc now /\ time.loc to = time.loc now.
Proof.
  intros Hwf. unfold window. cbn [fst snd].
  set (d := (time.Hour * 24)%Z).
  assert (Hd : d = 86400000000000) by reflexivity.
  destruct (time_facts.Truncate_since_zero now d Hwf ltac:(lia)) as [Hf Hfwf].
  set (from := time.Truncate now d) in *.
  destruct (time_facts.Add_since_zero from d Hfwf) as [Ht Htwf].
  set (to := time.Add from d) in *.
  assert (Hlf : time.loc from = time.loc now).
  { unfold from, time.Truncate. rewrite Hd. cbn [Z.leb Z.compare].
    apply time_facts.Add_loc. }
  assert (Hlt : time.loc to = time.loc now).
  { unfold to. rewrite time_facts.Add_loc. exact Hlf. }
  unfold time.wf, time.since_zero in *.
  pose proof (Z.div_mod (time.sec now * 1000000000 + time.nsec now) d ltac:(lia)) as Hdm.
  pose proof (Z.mod_pos_bound (time.sec now * 1000000000 + time.nsec now) d ltac:(lia)) as Hmb.
  set (q := (time.sec now * 1000000000 + time.nsec now) / d) in *.
  rewrite Hd in *.
  assert (Hn0 : time.nsec from = 0) by lia.
  assert (Hsq : time.sec from = 86400 * q) by lia.
  repeat split; try lia; try assumption.
  rewrite Hsq, Z.mul_comm. apply Z.mod_mul. lia.
Qed.

(** C3, as the code has it.  Once the credentials, the token and the
    service are there, [run] asks the service for one range.  Its lower
    bound is the reading of the clock rounded down to a whole number of days
    since the zero time, that is 00:00:00 UTC of the current UTC day; its
    upper bound is exactly 24 hours later; the reading lies between them;
    both are written in the local zone.  On the local wall clock the lower
    bound is as far past midnight as the local offset says, so it is local
    midnight only where that offset is a whole number of days. *)
Theorem window_is_the_utc_day env sort configDir id st config token :
  ready env configDir config token ->
  let now := reading env (ticks st) in
  let from := fst (window now) in
  let to := snd (window now) in
  (exists rest,
      trace (snd (run env sort configDir id st))
      = (trace st
           ++ Query id (time.Format_RFC3339 (local env) from)
                (time.Format_RFC3339 (local env) to) :: rest)%list)
  /\ time.nsec from = 0 /\ time.sec from mod 86400 = 0
  /\ time.sec from <= time.sec now < time.sec from + 86400
  /\ time.nsec to = 0 /\ time.sec to = time.sec from + 86400
  /\ time.loc from = time.Local /\ time.loc to = time.Local
  /\ time.abs (local env) from mod 86400 = local env (time.sec from) mod 86400.
Proof.
  intros Hready now from to.
  pose proof (window_bounds now (reading_wf env (ticks st))) as W.
  cbv zeta in W. fold from to in W.
  destruct W as (Hn & Hm & Hb & Htn & Hts & Hlf & Hlt).
  split.
  - rewrite (run_eq env sort configDir id st config token Hready). cbv zeta.
    unfold timeMin, timeMax. fold now from to.
    destruct (Events_Do env config token id _ _) as [items|err].
    + rewrite run_output_eq.
      destruct (sort (less env) items) as [|x r].
      * eexists. cbn. rewrite <- app_assoc. reflexivity.
      * cbv zeta. destruct (first_in_grace env _ (x :: r)).
        -- eexists. cbn. rewrite <- app_assoc. reflexivity.
        -- exists []. reflexivity.
    + exists []. reflexivity.
  - repeat split; try assumption; try lia.
    unfold time.abs, time.offset. rewrite Hlf. cbn [reading time.loc now].
    apply Z.mod_divide in Hm; [|lia]. destruct Hm as [c Hc]. rewrite Hc.
    rewrite Z.add_comm. apply Z.mod_add. lia.
Qed.

Lemma window_is_the_utc_day_witness :
  let env := world (instant "2024-03-10T15:20:30Z") 0 [] in
  let now := reading env O in
  let from := fst (window now) in
  let to := snd (window now) in
  (exists rest,
      trace (snd (run env insertion_sort "/c" "primary" (start_state [])))
      = Query "primary" "2024-03-10T00:00:00Z" "2024-03-11T00:00:00Z" :: rest)
  /\ time.nsec from = 0 /\ time.sec from mod 86400 = 0
  /\ time.sec from <= time.sec now < time.sec from + 86400
  /\ time.nsec to = 0 /\ time.sec to = time.sec from + 86400
  /\ time.loc from = time.Local /\ time.loc to = time.Local
  /\ time.abs (local env) from mod 86400 = 0.
Proof.
  intros env now from to.
  apply (window_is_the_utc_day env insertion_sort "/c" "primary" (start_state [])
           a_config a_token).
  exists "{}", "{}". repeat split; reflexivity.
Defined.

(** C3 as stated fails: two hours east of UTC, at ten in the morning, the
    range [run] asks for starts at two o'clock local time, which is not the
    midnight of the local day. *)
Lemma window_is_not_the_local_day :
  let env := world (instant "2024-01-01T10:00:00+02:00") 7200 [] in
  let now := reading env O in
  let from := fst (window now) in
  time.Format_RFC3339 (local env) now = "2024-01-01T10:00:00+02:00"
  /\ trace (snd (run env insertion_sort "/c" "primary" (start_state [])))
     = [Query "primary" "2024-01-01T02:00:00+02:00" "2024-01-02T02:00:00+02:00";
        Encode (mkBarItem "" "")]
  /\ ~ local_midnight_of env now from.
Proof.
  intros env now from.
  split; [reflexivity|split; [reflexivity|]].
  intros (_ & H & _). vm_compute in H. discriminate.
Qed.

(** C8.  When the service answers with no events, [run] writes one JSON
    object, the [BarItem] whose text and tooltip are both empty, and returns
    nil; the process ends with status 0.  Nothing else is written. *)
Theorem empty_list_gives_empty_item env sort flag id st config token :
  sort_Slice_spec sort ->
  ready env (getConfigDir env flag) config token ->
  Events_Do env config token id (timeMin env (ticks st)) (timeMax env (ticks st))
  = Ok [] ->
  let written :=
    add_effect
      (add_effect (tick st) (Query id (timeMin env (ticks st)) (timeMax env (ticks st))))
      (Encode (mkBarItem "" "")) in
  run env sort (getConfigDir env flag) id st = (inl None, written)
  /\ main env sort flag (cmd_run id) st = (0, written).
Proof.
  intros Hsort Hready Hnone written.
  assert (Hrun : run env sort (getConfigDir env flag) id st = (inl None, written)).
  { rewrite (run_eq env sort _ id st config token Hready). cbv zeta.
    rewrite Hnone, run_output_eq.
    destruct (Hsort (less env) [] (less_StrictWeak env)) as [Hperm _].
    apply Permutation_nil in Hperm. rewrite Hperm. reflexivity. }
  split; [exact Hrun|].
  unfold main, RunE. rewrite Hrun. reflexivity.
Qed.

Lemma empty_list_gives_empty_item_witness :
  let env := world (instant "2024-03-10T15:20:30Z") 0 [] in
  let written :=
    mkState 1 [] [Query "primary" "2024-03-10T00:00:00Z" "2024-03-11T00:00:00Z";
                  Encode (mkBarItem "" "")] in
  run env insertion_sort (getConfigDir env default_config_dir) "primary" (start_state [])
  = (inl None, written)
  /\ main env insertion_sort default_config_dir (cmd_run "primary") (start_state [])
     = (0, written).
Proof.
  intros env written.
  apply (empty_list_gives_empty_item env insertion_sort default_config_dir "primary"
           (start_state []) a_config a_token insertion_sort_spec).
  - exists "{}", "{}". repeat split; reflexivity.
  - reflexivity.
Defined.

(** ** Errors *)

Lemma readCredentials_eq env configDir st :
  readCredentials env configDir st
  = match ReadFile env (path_Join configDir "credentials.json") with
    | Err err =>
        (inl (Err (errs_Errorf "Couldn't read credentials file from %s: %v"
                     (path_Join configDir "credentials.json") err)), st)
    | Ok content =>
        match ConfigFromJSON env content calendar.CalendarReadonlyScope with
        | Err err =>
            (inr os_Exit1,
             add_effect st (Logged ("Couldn't parse configuration: " ++ Error err)))
        | Ok config => (inl (Ok config), st)
        end
    end.
Proof.
  unfold readCredentials.
  destruct (ReadFile env _); [|reflexivity].
  destruct (ConfigFromJSON env _ _); reflexivity.
Qed.

Lemma readToken_eq env dir st :
  exists t err, readToken env dir st = (inl (t, err), st)
                /\ match err with Some e => wrapped e | None => True end.
Proof.
  unfold readToken.
  destruct (ReadFile env _) as [content|e].
  - destruct (Unmarshal_Token env content) as [t [e|]];
      do 2 eexists; (split; [reflexivity|exact I]).
  - do 2 eexists; (split; [reflexivity|exact I]).
Qed.

Lemma exchanges_app a b : exchanges (a ++ b) = (exchanges a + exchanges b)%nat.
Proof.
  induction a as [|e r IH]; [reflexivity|].
  destruct e; simpl; rewrite IH; reflexivity.
Qed.

(** Case analysis on every [match] of the goal, innermost scrutinee
    first. *)
Ltac split_cases :=
  repeat match goal with
         | |- context [match ?x with _ => _ end] =>
             lazymatch x with
             | context [match _ with _ => _ end] => fail
             | _ => destruct x eqn:?
             end
         end.

(** [Token.Valid] reads the clock at most once and does nothing else. *)
Lemma Token_Valid_quiet env t st :
  exists valid st',
    Token_Valid env t st = (inl valid, st')
    /\ trace st' = trace st /\ stdin st' = stdin st.
Proof.
  unfold Token_Valid, Token_expired, bind, ret, time_Now.
  split_cases; do 2 eexists; (split; [reflexivity|split; reflexivity]).
Qed.

Lemma setup_refresh_quiet env config token st :
  exists token' st',
    setup_refresh env config token st = (inl token', st')
    /\ exchanges (trace st') = exchanges (trace st) /\ stdin st' = stdin st.
Proof.
  unfold setup_refresh.
  destruct (negb _); [|do 2 eexists; (split; [reflexivity|split; reflexivity])].
  unfold TokenSource_Token. unfold bind at 1 2.
  destruct (Token_Valid_quiet env token st) as (valid & st1 & E & Htr & Hin).
  rewrite E. unfold ret, emit, bind.
  split_cases; do 2 eexists;
    (split; [reflexivity|cbn [trace stdin]; rewrite ?exchanges_app, ?Htr; split;
                         [simpl; lia|assumption]]).
Qed.

Lemma setup_authorize_out env dir config st :
  returns_wrapped (setup_authorize env dir config st)
  /\ (exchanges (trace (snd (setup_authorize env dir config st)))
      <= exchanges (trace st) + 1)%nat.
Proof.
  unfold setup_authorize, bind, ret, emit, fmt_Scan, ioutil_WriteFile, json_Marshal,
    bind, ret, emit.
  split_cases; cbn [returns_wrapped wrapped snd trace];
    (split; [try exact I|rewrite ?exchanges_app; simpl; lia]).
Qed.

Lemma setup_after_credentials env dir st content config :
  ReadFile env (path_Join dir "credentials.json") = Ok content ->
  ConfigFromJSON env content calendar.CalendarReadonlyScope = Ok config ->
  returns_wrapped (setup env dir st)
  /\ (exchanges (trace (snd (setup env dir st))) <= exchanges (trace st) + 1)%nat.
Proof.
  intros Hc Hj.
  set (Q := fun out : (option error + Abort) * State =>
              returns_wrapped out
              /\ (exchanges (trace (snd out)) <= exchanges (trace st) + 1)%nat).
  change (Q (setup env dir st)).
  unfold setup. unfold bind at 1. rewrite readCredentials_eq, Hc, Hj.
  destruct (readToken_eq env dir st) as (t & terr & Ht & _).
  unfold bind at 1. rewrite Ht.
  unfold bind at 1. unfold time_Now.
  set (token := Some _). set (st1 := mkState _ _ _).
  destruct (Token_Valid_quiet env token st1) as (valid & st2 & E2 & T2 & _).
  unfold bind at 1. rewrite E2.
  destruct valid; cbn [negb].
  - unfold ret, Q. simpl. rewrite T2. simpl. split; [exact I|lia].
  - destruct (setup_refresh_quiet env config token st2) as (token' & st3 & E3 & T3 & _).
    unfold bind at 1. rewrite E3.
    destruct (Token_Valid_quiet env token' st3) as (valid' & st4 & E4 & T4 & _).
    unfold bind at 1. rewrite E4.
    assert (Hcount : exchanges (trace st4) = exchanges (trace st)).
    { rewrite T4, T3, T2. reflexivity. }
    destruct valid'; cbn [negb].
    + unfold ret, Q. simpl. rewrite Hcount. split; [exact I|lia].
    + destruct (setup_authorize_out env dir config st4) as [Hw Hn].
      rewrite Hcount in Hn. unfold Q. split; assumption.
Qed.









(** ** [setup] and the code exchange *)

(** C5 fails on the code.  With no token yet, a first code that the token
    endpoint refuses and a second code on standard input, [setup] reads both
    codes and sends the first only: there is one exchange request, the
    second code is dropped, and what is written to [token.json] is the nil
    token of the failed exchange, [null]; [setup] returns nil.  And in no
    world does [setup] send more than one exchange request. *)
Theorem setup_exchanges_once_only :
  setup world_first_code_refused home_config_dir (start_state ["first"; "second"])
  = (inl None,
     mkState 1 []
       [Println "https://accounts.example/auth";
        ExchangeRequest "first";
        FileWritten (path_Join home_config_dir "token.json") "null"])
  /\ forall env configDir st,
      (exchanges (trace (snd (setup env configDir st))) <= exchanges (trace st) + 1)%nat.
Proof.
  split; [reflexivity|].
  intros env configDir st.
  destruct (ReadFile env (path_Join configDir "credentials.json")) as [content|e] eqn:Hc.
  - destruct (ConfigFromJSON env content calendar.CalendarReadonlyScope)
      as [config|e] eqn:Hj.
    + apply (setup_after_credentials env configDir st content config Hc Hj).
    + unfold setup. unfold bind at 1. rewrite readCredentials_eq, Hc, Hj.
      cbn [snd add_effect trace]. rewrite exchanges_app. simpl. lia.
  - unfold setup. unfold bind at 1. rewrite readCredentials_eq, Hc.
    unfold ret. cbn [snd]. lia.
Qed.

(** ** [getConfigDir] *)

Lemma prefix_placeholder_free c r :
  Ascii.eqb "$" c = false -> String.prefix "${HOME}" (String c r) = false.
Proof.
  intros H.
  change (String.prefix "${HOME}" (String c r))
    with (if ascii_dec "$" c then String.prefix "{HOME}" r else false).
  destruct (ascii_dec "$" c) as [E|E]; [|reflexivity].
  subst c. discriminate.
Qed.

Lemma ReplaceAll_free s new :
  free_of "$" s = true -> ReplaceAll_from O s "${HOME}" new = s.
Proof.
  induction s as [|c r IH]; intros H; [reflexivity|].
  cbn [free_of] in H. apply andb_true_iff in H. destruct H as [Hc Hr].
  apply negb_true_iff in Hc.
  cbn [ReplaceAll_from]. rewrite (prefix_placeholder_free c r Hc), (IH Hr).
  reflexivity.
Qed.

Lemma ReplaceAll_at_placeholder b new :
  ReplaceAll_from O ("${HOME}" ++ b) "${HOME}" new
  = (new ++ ReplaceAll_from O b "${HOME}" new)%string.
Proof. destruct b; reflexivity. Qed.

Lemma ReplaceAll_placeholder a b new :
  free_of "$" a = true -> free_of "$" b = true ->
  ReplaceAll_from O (a ++ "${HOME}" ++ b) "${HOME}" new = (a ++ new ++ b)%string.
Proof.
  intros Ha Hb. induction a as [|c r IH].
  - change ("" ++ "${HOME}" ++ b)%string with ("${HOME}" ++ b)%string.
    rewrite ReplaceAll_at_placeholder, (ReplaceAll_free b new Hb).
    reflexivity.
  - cbn [free_of] in Ha. apply andb_true_iff in Ha. destruct Ha as [Hc Hr].
    apply negb_true_iff in Hc.
    change ((String c r ++ "${HOME}" ++ b)%string)
      with (String c (r ++ "${HOME}" ++ b)%string).
    cbn [ReplaceAll_from].
    rewrite (prefix_placeholder_free c _ Hc), (IH Hr). reflexivity.
Qed.

(** X1.  For a user whose home directory is known, [getConfigDir] puts the
    home directory in the place of the placeholder [${HOME}] wherever the
    placeholder stands in the path, and leaves a path without a dollar sign
    as it is; the default of [--config-dir] becomes the directory
    [.config/waybar-google-calendar-check] of the home directory. *)
Theorem getConfigDir_expands env HomeDir a b :
  user_Current env = Ok HomeDir ->
  free_of "$" a = true -> free_of "$" b = true ->
  getConfigDir env (a ++ "${HOME}" ++ b) = (a ++ HomeDir ++ b)%string
  /\ getConfigDir env a = a
  /\ getConfigDir env default_config_dir
     = (HomeDir ++ "/.config/waybar-google-calendar-check")%string.
Proof.
  intros Hu Ha Hb. unfold getConfigDir, strings_ReplaceAll. rewrite Hu.
  split; [apply ReplaceAll_placeholder; assumption|].
  split; [apply ReplaceAll_free; assumption|].
  apply (ReplaceAll_placeholder "" "/.config/waybar-google-calendar-check" HomeDir);
    reflexivity.
Qed.

Lemma getConfigDir_expands_witness :
  getConfigDir (world 0 0 []) "/srv/${HOME}/cal" = "/srv//home/u/cal"
  /\ getConfigDir (world 0 0 []) "/srv/" = "/srv/"
  /\ getConfigDir (world 0 0 []) default_config_dir
     = "/home/u/.config/waybar-google-calendar-check".
Proof.
  exact (getConfigDir_expands (world 0 0 []) "/home/u" "/srv/" "/cal"
           eq_refl eq_refl eq_refl).
Defined.

(** ** [list], and what [run] and [list] do before their request *)

Lemma print_calendars_eq items st :
  print_calendars items st
  = (inl tt, mkState (ticks st) (stdin st) (trace st ++ map calendar_line items)%list).
Proof.
  revert st. induction items as [|cal r IH]; intros st.
  - simpl. unfold ret. rewrite app_nil_r. now destruct st.
  - cbn [print_calendars]. unfold bind at 1. unfold emit. rewrite IH.
    cbn [ticks stdin trace map]. rewrite <- app_assoc. reflexivity.
Qed.

Lemma list_eq env configDir st config token :
  ready env configDir config token ->
  list_ env configDir st
  = match CalendarList_Do env config token with
    | Err err => (inl (Some (errs_Wrap err)), add_effect st ListRequest)
    | Ok calendars =>
        (inl None,
         mkState (ticks st) (stdin st)
           (trace st ++ ListRequest :: map calendar_line calendars)%list)
    end.
Proof.
  intros (content & tokenContent & Hc & Hj & Ht & Hu & Hs).
  unfold list_, readCredentials, readToken.
  rewrite Hc, Hj, Ht, Hu. unfold bind at 1. unfold ret at 1.
  unfold bind at 1. unfold ret at 1. rewrite Hs.
  unfold bind at 1. unfold emit.
  destruct (CalendarList_Do env config token) as [calendars|err]; [|reflexivity].
  unfold bind at 1. rewrite print_calendars_eq. unfold ret.
  cbn [ticks stdin trace]. rewrite <- app_assoc. reflexivity.
Qed.



(** The five steps before the request either all succeed, or [run] and
    [list] end in the same way without having done anything else. *)
Lemma ready_or_not env sort configDir id st :
  (exists config token, ready env configDir config token)
  \/ (exists err,
         wrapped err
         /\ run env sort configDir id st = (inl (Some err), st)
         /\ list_ env configDir st = (inl (Some err), st))
  \/ (exists msg,
         run env sort configDir id st = (inr os_Exit1, add_effect st (Logged msg))
         /\ list_ env configDir st = (inr os_Exit1, add_effect st (Logged msg))).
Proof.
  destruct (ReadFile env (path_Join configDir "credentials.json")) as [content|e] eqn:Hc.
  - destruct (ConfigFromJSON env content calendar.CalendarReadonlyScope)
      as [config|e] eqn:Hj.
    + destruct (ReadFile env (path_Join configDir "token.json")) as [tokenContent|e] eqn:Ht.
      * destruct (Unmarshal_Token env tokenContent) as [token [e|]] eqn:Hu.
        -- right; left. exists (errs_Wrap e). split; [exact I|].
           split; unfold run, list_, readToken; unfold bind at 1;
             rewrite readCredentials_eq, Hc, Hj; unfold bind at 1;
             rewrite Ht, Hu; reflexivity.
        -- destruct (NewService env config token) as [e|] eqn:Hs.
           ++ right; left. exists (errs_Wrap e). split; [exact I|].
              split; unfold run, list_, readToken; unfold bind at 1;
                rewrite readCredentials_eq, Hc, Hj; unfold bind at 1;
                rewrite Ht, Hu; unfold ret at 1; rewrite Hs; reflexivity.
           ++ left. exists config, token, content, tokenContent.
              repeat split; assumption.
      * right; left. exists (errs_Wrap e). split; [exact I|].
        split; unfold run, list_, readToken; unfold bind at 1;
          rewrite readCredentials_eq, Hc, Hj; unfold bind at 1;
          rewrite Ht; reflexivity.
    + right; right. eexists.
      split; unfold run, list_; unfold bind at 1;
        rewrite readCredentials_eq, Hc, Hj; reflexivity.
  - right; left.
    exists (errs_Wrap (errs_Errorf "Couldn't read credentials file from %s: %v"
                         (path_Join configDir "credentials.json") e)).
    split; [exact I|].
    split; unfold run, list_; unfold bind at 1;
      rewrite readCredentials_eq, Hc; reflexivity.
Qed.

(** X3.  Unless the credentials file is read and parsed, the token file is
    read and decoded and the service is created, [run] and [list] send no
    request and write nothing to standard output: both end in the same way,
    either returning the same wrapped error with the state untouched, or in
    the [log.Fatalf] of [readCredentials] with its log line as the only
    effect. *)
Theorem no_request_unless_ready env sort configDir id st :
  (forall config token, ~ ready env configDir config token) ->
  (exists err,
      wrapped err
      /\ run env sort configDir id st = (inl (Some err), st)
      /\ list_ env configDir st = (inl (Some err), st))
  \/ (exists msg,
         run env sort configDir id st = (inr os_Exit1, add_effect st (Logged msg))
         /\ list_ env configDir st = (inr os_Exit1, add_effect st (Logged msg))).
Proof.
  intros Hnot.
  destruct (ready_or_not env sort configDir id st) as [(config & token & H)|H].
  - destruct (Hnot config token H).
  - exact H.
Qed.

Lemma no_request_unless_ready_witness :
  (exists err,
      wrapped err
      /\ run world_first_code_refused insertion_sort home_config_dir "primary"
           (start_state [])
         = (inl (Some err), start_state [])
      /\ list_ world_first_code_refused home_config_dir (start_state [])
         = (inl (Some err), start_state []))
  \/ (exists msg,
         run world_first_code_refused insertion_sort home_config_dir "primary"
           (start_state [])
         = (inr os_Exit1, add_effect (start_state []) (Logged msg))
         /\ list_ world_first_code_refused home_config_dir (start_state [])
            = (inr os_Exit1, add_effect (start_state []) (Logged msg))).
Proof.
  apply (no_request_unless_ready world_first_code_refused insertion_sort
           home_config_dir "primary" (start_state [])).
  intros config token (content & tokenContent & _ & _ & Ht & _).
  vm_compute in Ht. discriminate.
Defined.

(** ** What [run] writes, and when it panics *)





Lemma find_earliest env p l x :
  ordered_by (less env) l -> find p l = Some x ->
  forall e, In e l -> p e = true -> less env e x = false.
Proof.
  unfold ordered_by. intros Hl. induction Hl as [|y r Hr IH Hy]; [discriminate|].
  cbn [find]. destruct (p y) eqn:Py.
  - intros [= <-] e [<-|Hin] _.
    + apply time_facts.Before_irrefl.
    + rewrite Forall_forall in Hy. exact (Hy e Hin).
  - intros Hf e [<-|Hin] Pe.
    + rewrite Pe in Py. discriminate.
    + exact (IH Hf e Hin Pe).
Qed.

(** X6.  Sorting and selection together: when the clock shows [now], the
    event the loop selects from the sorted list is an event of the input
    that is within the grace window, and no event within the grace window
    starts before it. *)
Theorem next_is_earliest_in_grace env sort items now st next alt st' :
  sort_Slice_spec sort ->
  (forall k, reading env k = now) ->
  run_loop env (sort (less env) items) None "" st = (inl (Some next, alt), st') ->
  In next items
  /\ in_grace env now next = true
  /\ forall e, In e items -> in_grace env now e = true ->
               time.Before (start env e) (start env next) = false.
Proof.
  intros Hsort Hc.
  destruct (Hsort (less env) items (less_StrictWeak env)) as [Hperm Hord].
  rewrite run_loop_scan, (first_in_grace_still env now _ Hc).
  intros [= Hfind _ _].
  destruct (find_some _ _ Hfind) as [Hin Hg].
  split; [eapply Permutation_in; [apply Permutation_sym, Hperm|exact Hin]|].
  split; [exact Hg|].
  intros e He Hge.
  apply (find_earliest env _ _ next Hord Hfind e); [|exact Hge].
  eapply Permutation_in; eassumption.
Qed.

Lemma next_is_earliest_in_grace_witness :
  let env := world (instant "2024-01-01T09:02:00Z") 0 [] in
  let items := [event "2024-01-01T14:30:00Z" "Review";
                event "2024-01-01T09:00:00Z" "Standup";
                event "2024-01-01T08:00:00Z" "Early"] in
  let next := event "2024-01-01T09:00:00Z" "Standup" in
  In next items
  /\ in_grace env (reading env O) next = true
  /\ forall e, In e items -> in_grace env (reading env O) e = true ->
               time.Before (start env e) (start env next) = false.
Proof.
  intros env items next.
  exact (next_is_earliest_in_grace env insertion_sort items (reading env O)
           (start_state []) next
           ("08:00 Early" ++ LF ++ "09:00 Standup" ++ LF ++ "14:30 Review" ++ LF)%string
           (mkState 2 [] []) insertion_sort_spec (fun k => eq_refl) eq_refl).
Defined.



(** ** What [setup] does and never does *)

Lemma count_app p a b : count p (a ++ b) = (count p a + count p b)%nat.
Proof. unfold count. now rewrite filter_app, length_app. Qed.

Lemma setup_refresh_effects env configDir config token st :
  exists token' st' rest,
    setup_refresh env config token st = (inl token', st')
    /\ trace st' = (trace st ++ rest)%list
    /\ forallb (setup_effect configDir) rest = true
    /\ count is_FileWritten rest = O
    /\ count is_ExchangeRequest rest = O.
Proof.
  unfold setup_refresh.
  destruct (negb _).
  2: { exists token, st, []. rewrite app_nil_r. repeat split; reflexivity. }
  unfold TokenSource_Token. unfold bind at 1 2.
  destruct (Token_Valid_quiet env token st) as (valid & st1 & E & Htr & Hin).
  rewrite E. unfold ret, emit, bind.
  split_cases;
    first
      [ do 2 eexists; exists []; (split; [reflexivity|]); cbn [trace];
        rewrite Htr, app_nil_r; repeat split; reflexivity
      | do 2 eexists; eexists [_]; (split; [reflexivity|]); cbn [trace];
        rewrite Htr; repeat split; reflexivity
      | do 2 eexists; eexists [_; _]; (split; [reflexivity|]); cbn [trace];
        rewrite Htr, <- app_assoc; repeat split; reflexivity ].
Qed.

Lemma setup_authorize_effects env configDir config st :
  exists rest,
    trace (snd (setup_authorize env configDir config st)) = (trace st ++ rest)%list
    /\ forallb (setup_effect configDir) rest = true
    /\ (count is_FileWritten rest <= count is_ExchangeRequest rest)%nat
    /\ (exists r, fst (setup_authorize env configDir config st) = inl r)
    /\ exists more, rest = Println (AuthCodeURL env config) :: more.
Proof.
  unfold setup_authorize, bind, ret, emit, fmt_Scan, ioutil_WriteFile, json_Marshal,
    bind, ret, emit.
  split_cases; cbn [snd fst trace]; rewrite <- ?app_assoc; cbn [app];
    (eexists; split; [reflexivity|]);
    cbn [forallb setup_effect]; rewrite ?String.eqb_refl;
    (split; [reflexivity|split; [unfold count; simpl; lia|split; eexists; reflexivity]]).
Qed.

(** The effects of [setup], for every world. *)
Lemma setup_effects env configDir st :
  exists rest,
    trace (snd (setup env configDir st)) = (trace st ++ rest)%list
    /\ forallb (setup_effect configDir) rest = true
    /\ (count is_FileWritten rest <= count is_ExchangeRequest rest)%nat
    /\ fst (setup env configDir st) <> inr nil_dereference.
Proof.
  set (Q := fun out : (option error + Abort) * State =>
              exists rest,
                trace (snd out) = (trace st ++ rest)%list
                /\ forallb (setup_effect configDir) rest = true
                /\ (count is_FileWritten rest <= count is_ExchangeRequest rest)%nat
                /\ fst out <> inr nil_dereference).
  change (Q (setup env configDir st)).
  unfold setup. unfold bind at 1. rewrite readCredentials_eq.
  destruct (ReadFile env _) as [content|e].
  2: { exists []. cbn. rewrite app_nil_r. repeat split; try reflexivity; try lia.
       discriminate. }
  destruct (ConfigFromJSON env content _) as [config|e].
  2: { exists [Logged ("Couldn't parse configuration: " ++ Error e)%string].
       cbn. repeat split; try reflexivity; try lia. discriminate. }
  destruct (readToken_eq env configDir st) as (t & terr & Ht & _).
  unfold bind at 1. rewrite Ht.
  unfold bind at 1. unfold time_Now.
  set (token := Some _). set (st1 := mkState _ _ _).
  destruct (Token_Valid_quiet env token st1) as (valid & st2 & E2 & T2 & _).
  unfold bind at 1. rewrite E2.
  destruct valid; cbn [negb].
  { exists []. unfold ret. cbn [snd fst]. rewrite T2, app_nil_r.
    repeat split; try reflexivity; try lia. discriminate. }
  destruct (setup_refresh_effects env configDir config token st2)
    as (token' & st3 & rest1 & E3 & T3 & F3 & W3 & X3).
  unfold bind at 1. rewrite E3.
  destruct (Token_Valid_quiet env token' st3) as (valid' & st4 & E4 & T4 & _).
  unfold bind at 1. rewrite E4.
  assert (Htrace : trace st4 = (trace st ++ rest1)%list).
  { rewrite T4, T3, T2. reflexivity. }
  destruct valid'; cbn [negb].
  { exists rest1. unfold ret. cbn [snd fst].
    repeat split; try assumption; try lia. discriminate. }
  destruct (setup_authorize_effects env configDir config st4)
    as (rest2 & T5 & F5 & W5 & (r & R5) & _).
  exists (rest1 ++ rest2)%list. unfold Q.
  rewrite T5, Htrace, <- app_assoc, forallb_app, F3, F5, !count_app, W3, X3, R5.
  repeat split; try reflexivity; try lia. discriminate.
Qed.

(** X8.  Whatever the world, [setup] only appends to the trace, and all it
    does is print, ask the token endpoint, log before [log.Fatalf], and
    write the file [token.json] of its directory: it never asks the
    calendar service, never writes a JSON object to standard output and
    never writes another file.  It writes [token.json] only after it has
    sent an exchange request, and it never panics. *)
Theorem setup_touches_only_token_json env configDir st :
  exists rest,
    trace (snd (setup env configDir st)) = (trace st ++ rest)%list
    /\ forallb (setup_effect configDir) rest = true
    /\ (count is_FileWritten rest <= count is_ExchangeRequest rest)%nat
    /\ fst (setup env configDir st) <> inr nil_dereference.
Proof. exact (setup_effects env configDir st). Qed.

(** The first run of [setup], with credentials in place and no token file
    yet, goes straight to the authorization prompt. *)
Lemma setup_first_run env configDir st content config e :
  ReadFile env (path_Join configDir "credentials.json") = Ok content ->
  ConfigFromJSON env content calendar.CalendarReadonlyScope = Ok config ->
  ReadFile env (path_Join configDir "token.json") = Err e ->
  setup env configDir st = setup_authorize env configDir config (tick st).
Proof.
  intros Hc Hj Ht.
  unfold setup. unfold bind at 1. rewrite readCredentials_eq, Hc, Hj.
  unfold readToken. rewrite Ht. reflexivity.
Qed.

(** X9.  On its first run, with credentials in place and no token file
    yet, [setup] prints the authorization URL, reads one code from standard
    input and exchanges it; when the exchange succeeds it writes the JSON of
    the token it got to [token.json] of its directory and returns nil,
    leaving the rest of the input unread. *)
Theorem setup_persists_the_exchanged_token
  env configDir st content config e code more tk tokenBytes :
  ReadFile env (path_Join configDir "credentials.json") = Ok content ->
  ConfigFromJSON env content calendar.CalendarReadonlyScope = Ok config ->
  ReadFile env (path_Join configDir "token.json") = Err e ->
  stdin st = code :: more ->
  Exchange env config code = Ok tk ->
  Marshal_Token env tk = Ok tokenBytes ->
  WriteFile env (path_Join configDir "token.json") tokenBytes = None ->
  setup env configDir st
  = (inl None,
     mkState (S (ticks st)) more
       (trace st ++ [Println (AuthCodeURL env config);
                     ExchangeRequest code;
                     FileWritten (path_Join configDir "token.json") tokenBytes])%list).
Proof.
  intros Hc Hj Ht Hin Hx Hm Hw.
  rewrite (setup_first_run env configDir st content config e Hc Hj Ht).
  unfold setup_authorize, bind, emit, fmt_Scan, tick. cbn [stdin ticks trace].
  rewrite Hin. unfold ret. rewrite Hx.
  unfold json_Marshal. rewrite Hm.
  unfold ioutil_WriteFile. rewrite Hw. unfold bind, emit, ret. cbn [stdin ticks trace].
  rewrite <- !app_assoc. reflexivity.
Qed.

Lemma setup_persists_the_exchanged_token_witness :
  setup world_first_code_refused home_config_dir (start_state ["second"; "third"])
  = (inl None,
     mkState 1 ["third"]
       [Println "https://accounts.example/auth";
        ExchangeRequest "second";
        FileWritten (path_Join home_config_dir "token.json") "{token}"]).
Proof.
  exact (setup_persists_the_exchanged_token world_first_code_refused home_config_dir
           (start_state ["second"; "third"]) "{}" a_config
           (PathError "open" (path_Join home_config_dir "token.json"))
           "second" ["third"] a_token "{token}"
           eq_refl eq_refl eq_refl eq_refl eq_refl eq_refl eq_refl).
Defined.

(** X10.  On its first run, when standard input ends at the prompt, [setup]
    returns the wrapped end-of-input error and writes no file: with no code
    at all nothing is sent to the token endpoint, and with a single code
    that the endpoint refuses the one exchange request is all that
    happened. *)
Theorem setup_stops_at_end_of_input env configDir st content config e :
  ReadFile env (path_Join configDir "credentials.json") = Ok content ->
  ConfigFromJSON env content calendar.CalendarReadonlyScope = Ok config ->
  ReadFile env (path_Join configDir "token.json") = Err e ->
  (stdin st = [] ->
   setup env configDir st
   = (inl (Some (errs_Wrap io_EOF)),
      mkState (S (ticks st)) [] (trace st ++ [Println (AuthCodeURL env config)])%list))
  /\ (forall code err,
         stdin st = [code] -> Exchange env config code = Err err ->
         setup env configDir st
         = (inl (Some (errs_Wrap io_EOF)),
            mkState (S (ticks st)) []
              (trace st ++ [Println (AuthCodeURL env config);
                            ExchangeRequest code])%list)).
Proof.
  intros Hc Hj Ht.
  rewrite (setup_first_run env configDir st content config e Hc Hj Ht).
  split.
  - intros Hin.
    unfold setup_authorize, bind, emit, fmt_Scan, tick. cbn [stdin ticks trace].
    rewrite Hin. reflexivity.
  - intros code err Hin Hx.
    unfold setup_authorize, bind, emit, fmt_Scan, tick. cbn [stdin ticks trace].
    rewrite Hin. unfold ret. rewrite Hx. cbn [stdin ticks trace].
    rewrite <- !app_assoc. reflexivity.
Qed.

Lemma setup_stops_at_end_of_input_witness :
  setup world_first_code_refused home_config_dir (start_state ["first"])
  = (inl (Some (errs_Wrap io_EOF)),
     mkState 1 []
       [Println "https://accounts.example/auth"; ExchangeRequest "first"]).
Proof.
  exact (proj2 (setup_stops_at_end_of_input world_first_code_refused home_config_dir
                  (start_state ["first"]) "{}" a_config
                  (PathError "open" (path_Join home_config_dir "token.json"))
                  eq_refl eq_refl eq_refl)
           "first" RetrieveError eq_refl eq_refl).
Defined.

(** ** [setup] forces the stored token to count as expired *)

Lemma clock_monotone env :
  clock_runs env -> forall j k, (j <= k)%nat -> clock env j <= clock env k.
Proof.
  intros Hrun j k Hjk. induction Hjk as [|k _ IH]; [lia|].
  destruct (Hrun k) as [_ Hk]. lia.
Qed.

Lemma advance_eq n st st' :
  ticks st' = (ticks st + n)%nat -> stdin st' = stdin st -> trace st' = trace st ->
  st' = advance n st.
Proof. destruct st'; unfold advance; simpl; intros -> -> ->. reflexivity. Qed.

(** A token whose expiry was set to one hour before an earlier reading of
    the clock is not valid, whatever else it holds. *)
Lemma forced_expiry env t k st :
  clock_runs env -> (k < ticks st)%nat ->
  exists n,
    Token_Valid env
      (Some (oauth2.set_Expiry t (time.Add (reading env k) (- time.Hour)))) st
    = (inl false, advance n st).
Proof.
  intros Hrun Hk. unfold Token_Valid.
  change (oauth2.AccessToken (oauth2.set_Expiry t _)) with (oauth2.AccessToken t).
  destruct (String.eqb (oauth2.AccessToken t) "").
  { exists O. unfold ret, advance. rewrite Nat.add_0_r. now destruct st. }
  unfold bind, Token_expired.
  set (ex := time.Add (reading env k) (- time.Hour)).
  change (oauth2.Expiry (oauth2.set_Expiry t ex)) with ex.
  destruct (time_facts.Add_since_zero (reading env k) (- time.Hour) (reading_wf env k))
    as [Hex Hexwf].
  fold ex in Hex, Hexwf. rewrite reading_since_zero in Hex.
  destruct (Hrun k) as [Hlate _].
  assert (Hnz : time.IsZero ex = false).
  { unfold time.IsZero. apply andb_false_iff.
    unfold time.since_zero, time.wf in *. change time.Hour with 3600000000000 in Hex.
    destruct (Z.eq_dec (time.sec ex) 0) as [E|E].
    - right. apply Z.eqb_neq. lia.
    - left. apply Z.eqb_neq. exact E. }
  rewrite Hnz. unfold bind, time_Now, ret.
  destruct (time_facts.Add_since_zero ex (- expiryDelta) Hexwf) as [Hd Hdwf].
  assert (Hb : time.Before (time.Add ex (- expiryDelta)) (reading env (ticks st)) = true).
  { apply (time_facts.Before_since_zero _ _ Hdwf (reading_wf env (ticks st))).
    rewrite Hd, Hex, reading_since_zero.
    pose proof (clock_monotone env Hrun k (ticks st) ltac:(lia)).
    change time.Hour with 3600000000000. change expiryDelta with 10000000000. lia. }
  rewrite Hb. exists 1%nat. unfold advance. cbn [negb]. now rewrite Nat.add_1_r.
Qed.

Lemma advance_advance n m st : advance m (advance n st) = advance (n + m) st.
Proof. unfold advance. cbn [ticks stdin trace]. now rewrite Nat.add_assoc. Qed.

(** X11.  With a clock that does not run backwards, [setup] never trusts
    the stored token: it overwrites the expiry with one hour ago, so a token
    without a refresh token always leads to the authorization prompt, however
    long the stored token would still have been good for. *)
Theorem setup_always_asks_again env configDir st content config t terr :
  clock_runs env ->
  ReadFile env (path_Join configDir "credentials.json") = Ok content ->
  ConfigFromJSON env content calendar.CalendarReadonlyScope = Ok config ->
  readToken env configDir st = (inl (t, terr), st) ->
  oauth2.RefreshToken t = "" ->
  exists n more,
    setup env configDir st = setup_authorize env configDir config (advance n st)
    /\ trace (snd (setup env configDir st))
       = (trace st ++ Println (AuthCodeURL env config) :: more)%list.
Proof.
  intros Hrun Hc Hj Ht Hrt.
  assert (E : exists n,
             setup env configDir st = setup_authorize env configDir config (advance n st)).
  { unfold setup. unfold bind at 1. rewrite readCredentials_eq, Hc, Hj.
    unfold bind at 1. rewrite Ht.
    unfold bind at 1. unfold time_Now. fold (tick st).
    destruct (forced_expiry env t (ticks st) (tick st) Hrun ltac:(simpl; lia)) as [n1 E1].
    unfold bind at 1. rewrite E1. cbn [negb].
    unfold setup_refresh.
    change (oauth2.RefreshToken (oauth2.set_Expiry t _)) with (oauth2.RefreshToken t).
    rewrite Hrt. cbn [String.eqb negb]. unfold bind at 1. unfold ret at 1.
    destruct (forced_expiry env t (ticks st) (advance n1 (tick st)) Hrun
                ltac:(simpl; lia)) as [n2 E2].
    unfold bind at 1. rewrite E2. cbn [negb].
    exists (1 + n1 + n2)%nat. f_equal.
    apply advance_eq; simpl; try reflexivity. lia. }
  destruct E as [n E]. exists n.
  destruct (setup_authorize_effects env configDir config (advance n st))
    as (rest & T & _ & _ & _ & (more & ->)).
  exists more. split; [exact E|]. rewrite E, T. reflexivity.
Qed.

(** X12.  With a clock that does not run backwards and a stored refresh
    token, [setup] asks the token endpoint for a new token once; when the
    new token is valid it returns nil at once: it does not prompt, and it
    does not write the new token to [token.json]. *)
Theorem setup_does_not_store_a_refreshed_token env configDir st content config t terr tk :
  clock_runs env ->
  ReadFile env (path_Join configDir "credentials.json") = Ok content ->
  ConfigFromJSON env content calendar.CalendarReadonlyScope = Ok config ->
  readToken env configDir st = (inl (t, terr), st) ->
  String.eqb (oauth2.RefreshToken t) "" = false ->
  Refresh env config (oauth2.RefreshToken t) = Ok tk ->
  fresh env tk ->
  exists n,
    setup env configDir st
    = (inl None,
       mkState (ticks st + n) (stdin st)
         (trace st ++ [RefreshRequest (oauth2.RefreshToken t)])%list).
Proof.
  intros Hrun Hc Hj Ht Hrt Hre [Hat Hfresh].
  unfold setup. unfold bind at 1. rewrite readCredentials_eq, Hc, Hj.
  unfold bind at 1. rewrite Ht.
  unfold bind at 1. unfold time_Now. fold (tick st).
  destruct (forced_expiry env t (ticks st) (tick st) Hrun ltac:(simpl; lia)) as [n1 E1].
  unfold bind at 1. rewrite E1. cbn [negb].
  unfold setup_refresh.
  change (oauth2.RefreshToken (oauth2.set_Expiry t _)) with (oauth2.RefreshToken t).
  rewrite Hrt. cbn [negb]. unfold TokenSource_Token.
  destruct (forced_expiry env t (ticks st) (advance n1 (tick st)) Hrun
              ltac:(simpl; lia)) as [n2 E2].
  unfold bind at 1. unfold bind at 1. unfold bind at 1. rewrite E2.
  change (oauth2.RefreshToken (oauth2.set_Expiry t _)) with (oauth2.RefreshToken t).
  rewrite Hrt.
  unfold bind at 1. unfold emit at 1. rewrite Hre. unfold ret at 1. unfold ret at 1.
  unfold bind at 1. unfold Token_Valid. rewrite Hat.
  unfold bind at 1. unfold Token_expired.
  destruct (time.IsZero (oauth2.Expiry tk)) eqn:Ez.
  - unfold ret. cbn [negb advance tick ticks stdin trace].
    exists (1 + n1 + n2)%nat. f_equal. f_equal. lia.
  - destruct Hfresh as [Hz|Hb]; [discriminate|].
    unfold bind at 1. unfold time_Now. rewrite Hb. unfold ret.
    cbn [negb advance tick ticks stdin trace].
    exists (1 + n1 + n2 + 1)%nat. f_equal. f_equal. lia.
Qed.

Lemma setup_always_asks_again_witness :
  exists n more,
    setup (world_with_token long_lived_token) "/c" (start_state ["code"])
    = setup_authorize (world_with_token long_lived_token) "/c" a_config
        (advance n (start_state ["code"]))
    /\ trace (snd (setup (world_with_token long_lived_token) "/c" (start_state ["code"])))
       = Println "https://accounts.example/auth" :: more.
Proof.
  apply (setup_always_asks_again (world_with_token long_lived_token) "/c"
           (start_state ["code"]) "{}" a_config long_lived_token None).
  - intros k. split; [reflexivity|apply Z.le_refl].
  - reflexivity.
  - reflexivity.
  - reflexivity.
  - reflexivity.
Defined.

Lemma setup_does_not_store_a_refreshed_token_witness :
  exists n,
    setup (world_with_token a_token) "/c" (start_state ["code"])
    = (inl None, mkState (0 + n) ["code"] [RefreshRequest "refresh"]).
Proof.
  apply (setup_does_not_store_a_refreshed_token (world_with_token a_token) "/c"
           (start_state ["code"]) "{}" a_config a_token None a_token).
  - intros k. split; [reflexivity|apply Z.le_refl].
  - reflexivity.
  - reflexivity.
  - reflexivity.
  - reflexivity.
  - reflexivity.
  - split; [reflexivity|left; reflexivity].
Defined.

(** ** The exit status *)

Lemma list_never_panics env configDir st :
  fst (list_ env configDir st) <> inr nil_dereference.
Proof.
  destruct (ready_or_not env insertion_sort configDir "" st)
    as [(config & token & Hready)|[(err & _ & _ & H)|(msg & _ & H)]].
  - rewrite (list_eq env configDir st config token Hready).
    destruct (CalendarList_Do env config token); discriminate.
  - rewrite H. discriminate.
  - rewrite H. discriminate.
Qed.

(** X13.  The process ends with status 0, 1 or 2: with 0 exactly when the
    command returned nil, and with 2, the status of a runtime panic, only
    for the command [run]; [setup] and [list] never panic. *)
Theorem only_run_can_panic env sort flag cmd st :
  (fst (main env sort flag cmd st) = 0
   \/ fst (main env sort flag cmd st) = 1
   \/ fst (main env sort flag cmd st) = 2)
  /\ (fst (main env sort flag cmd st) = 0
      <-> fst (RunE env sort flag cmd st) = inl None)
  /\ (fst (main env sort flag cmd st) = 2 -> exists id, cmd = cmd_run id).
Proof.
  assert (P : fst (main env sort flag cmd st) = 2 ->
              fst (RunE env sort flag cmd st) = inr nil_dereference).
  { unfold main. destruct (RunE env sort flag cmd st) as [[[e|]|[|]] st'];
      cbn [fst]; intros H; try discriminate; reflexivity. }
  split; [|split].
  - unfold main. destruct (RunE env sort flag cmd st) as [[[e|]|[|]] st'];
      cbn [fst]; auto.
  - unfold main. destruct (RunE env sort flag cmd st) as [[[e|]|[|]] st'];
      cbn [fst]; split; intros H; try discriminate; reflexivity.
  - intros H. apply P in H. destruct cmd as [id| |].
    + now exists id.
    + unfold RunE in H.
      destruct (setup_effects env (getConfigDir env flag) st)
        as (rest & _ & _ & _ & N).
      contradiction.
    + unfold RunE in H.
      destruct (list_never_panics env (getConfigDir env flag) st H).
Qed.

(** ** The order of the answer *)

Lemma neither_Before_Equal t u :
  time.Before t u = false -> time.Before u t = false -> time.Equal t u = true.
Proof.
  unfold time.Before, time.Equal.
  rewrite !orb_false_iff, !andb_false_iff, !Z.ltb_ge, !Z.eqb_neq, andb_true_iff,
    !Z.eqb_eq.
  lia.
Qed.

Lemma event_eq_dec (x y : calendar.Event) : {x = y} + {x <> y}.
Proof. repeat decide equality. Qed.

(** Two orderings of the same events, both by start, are the same list
    when no two different events start together. *)
Lemma ordered_unique env l1 l2 :
  Permutation l1 l2 -> distinct_starts env l1 ->
  ordered_by (less env) l1 -> ordered_by (less env) l2 -> l1 = l2.
Proof.
  unfold ordered_by. intros Hperm Hd H1. revert l2 Hperm.
  induction H1 as [|x r1 Hr1 IH Hx]; intros l2 Hperm H2.
  - apply Permutation_nil in Hperm. now subst.
  - destruct H2 as [|y r2 Hr2 Hy].
    + apply Permutation_sym, Permutation_nil in Hperm. discriminate.
    + assert (Exy : x = y).
      { destruct (Permutation_in x Hperm (or_introl eq_refl)) as [E|Hin2]; [now subst|].
        destruct (Permutation_in y (Permutation_sym Hperm) (or_introl eq_refl))
          as [E|Hin1]; [exact E|].
        rewrite Forall_forall in Hx, Hy.
        pose proof (Hy x Hin2) as Lxy. pose proof (Hx y Hin1) as Lyx.
        cbv beta in Lxy, Lyx. unfold less in Lxy, Lyx.
        pose proof (neither_Before_Equal _ _ Lxy Lyx) as Heq.
        destruct (event_eq_dec x y) as [E|Hne]; [exact E|].
        rewrite (Hd x y (or_introl eq_refl) (or_intror Hin1) Hne) in Heq.
        discriminate. }
      subst y. f_equal.
      apply IH.
      * intros a b Ha Hb. apply Hd; now right.
      * eapply Permutation_cons_inv, Hperm.
      * exact Hr2.
Qed.

(** X14.  When no two different events start at the same instant, what
    [run] writes depends neither on the order in which the service lists
    the events nor on how [sort.Slice] sorts: any two answers with the same
    events, sorted by any two sorts that keep the library's promise, give
    the same result. *)
Theorem order_of_answer_does_not_matter env sort1 sort2 items1 items2 st :
  sort_Slice_spec sort1 -> sort_Slice_spec sort2 ->
  Permutation items1 items2 ->
  distinct_starts env items1 ->
  run_output env sort1 items1 st = run_output env sort2 items2 st.
Proof.
  intros H1 H2 Hperm Hd.
  destruct (H1 (less env) items1 (less_StrictWeak env)) as [P1 O1].
  destruct (H2 (less env) items2 (less_StrictWeak env)) as [P2 O2].
  assert (E : sort1 (less env) items1 = sort2 (less env) items2).
  { apply (ordered_unique env).
    - eapply perm_trans; [apply Permutation_sym, P1|].
      eapply perm_trans; [exact Hperm|exact P2].
    - intros a b Ha Hb. apply Hd; eapply Permutation_in;
        try (apply Permutation_sym, P1); assumption.
    - exact O1.
    - exact O2. }
  rewrite !run_output_eq, E. reflexivity.
Qed.

Lemma order_of_answer_does_not_matter_witness :
  let env := world (instant "2024-01-01T09:02:00Z") 0 [] in
  let A := event "2024-01-01T09:00:00Z" "Standup" in
  let B := event "2024-01-01T14:30:00Z" "Review" in
  run_output env insertion_sort [A; B] (start_state [])
  = run_output env reversing_sort [B; A] (start_state []).
Proof.
  intros env A B.
  apply (order_of_answer_does_not_matter env insertion_sort reversing_sort
           [A; B] [B; A] (start_state []) insertion_sort_spec reversing_sort_spec).
  - apply perm_swap.
  - intros a b [<-|[<-|[]]] [<-|[<-|[]]] Hne; try reflexivity; now elim Hne.
Defined.
